(** * Route optimisation of the waste-report dashboard (ReportList.tsx)

    A shallow embedding of the routing core of the [ReportList] component:
    the haversine helper [getDistanceFromLatLonInKm], the coordinate
    resolver [getCoords], the greedy nearest-neighbour handler
    [handleOptimizeRoute] and the leg computation of the route modal.

    Numbers are JavaScript numbers, i.e. IEEE 754 binary64 values, modelled
    by Rocq's primitive floats.  Report objects are compared by identity in
    the source ([Set<Report>]); they live in a heap and the arrays hold
    references to them. *)

From Stdlib Require Import ZArith Lia Floats.
From stdpp Require Import base decidable option list gmap strings sorting.
From Equations Require Import Equations.
From Equations.Prop Require Import Logic.

(* Decimal literals denote the nearest binary64 value, as in JavaScript. *)
#[local] Set Warnings "-inexact-float".

(** ** The host's [Math] object

    [Math.sin], [Math.cos] and [Math.atan2] are supplied by the JavaScript
    engine; ECMA-262 leaves their results implementation-approximated.  The
    development is parametric in them.  [Math.sqrt] and the arithmetic
    operators are the IEEE 754 operations of the primitive floats. *)

Record MathObject := {
  Math_sin : float -> float;
  Math_cos : float -> float;
  Math_atan2 : float -> float -> float;
}.

Definition Math_PI : float := 0x1.921fb54442d18p+1%float.

Definition Math_sqrt (x : float) : float := PrimFloat.sqrt x.

(** The clauses of ECMA-262 on NaN arguments of [Math.sin] and [Math.atan2]. *)
Definition propagates_NaN (M : MathObject) : Prop :=
  Math_sin M nan = nan /\ forall x, Math_atan2 M nan x = nan.

(** ** Data model (types.ts) *)

Record GeoCoordinates := {
  latitude : float;
  longitude : float;
}.

Inductive UserRole := Citizen | Volunteer | Admin.

Inductive ReportStatus := PENDING | VERIFIED | REJECTED | COLLECTED.

(** [Report extends WasteReportData].  The media attachments and the
    analysis record are not read by the routing code and are left out. *)
Record Report := {
  id : string;
  userId : string;
  status : ReportStatus;
  timestamp : float;
  userRole : UserRole;
  centerCity : string;
  manualWasteType : string;
  coordinates : option GeoCoordinates;
  description : string;
  reporterName : string;
  reporterContact : string;
}.

(** The [{ lat, lng }] objects of constants.ts and of [getCoords]. *)
Record LatLng := {
  lat : float;
  lng : float;
}.

(** constants.ts: the own entries of the object. *)
Definition CITY_COORDINATES : gmap string LatLng :=
  list_to_map [
    ("Mumbai", {| lat := 19.0760; lng := 72.8777 |});
    ("Delhi", {| lat := 28.7041; lng := 77.1025 |});
    ("Bengaluru", {| lat := 12.9716; lng := 77.5946 |});
    ("Hyderabad", {| lat := 17.3850; lng := 78.4867 |});
    ("Ahmedabad", {| lat := 23.0225; lng := 72.5714 |});
    ("Chennai", {| lat := 13.0827; lng := 80.2707 |});
    ("Kolkata", {| lat := 22.5726; lng := 88.3639 |});
    ("Surat", {| lat := 21.1702; lng := 72.8311 |});
    ("Pune", {| lat := 18.5204; lng := 73.8567 |});
    ("Jaipur", {| lat := 26.9124; lng := 75.7873 |});
    ("Lucknow", {| lat := 26.8467; lng := 80.9462 |});
    ("Kanpur", {| lat := 26.4499; lng := 80.3319 |});
    ("Nagpur", {| lat := 21.1458; lng := 79.0882 |});
    ("Indore", {| lat := 22.7196; lng := 75.8577 |});
    ("Thane", {| lat := 19.2183; lng := 72.9781 |});
    ("Bhopal", {| lat := 23.2599; lng := 77.4126 |});
    ("Visakhapatnam", {| lat := 17.6868; lng := 83.2185 |});
    ("Patna", {| lat := 25.5941; lng := 85.1376 |});
    ("Vadodara", {| lat := 22.3072; lng := 73.1812 |});
    ("Ghaziabad", {| lat := 28.6692; lng := 77.4538 |});
    ("Ludhiana", {| lat := 30.9010; lng := 75.8573 |});
    ("Agra", {| lat := 27.1767; lng := 78.0081 |});
    ("Nashik", {| lat := 19.9975; lng := 73.7898 |});
    ("Faridabad", {| lat := 28.4089; lng := 77.3178 |});
    ("Rajkot", {| lat := 22.3039; lng := 70.8022 |});
    ("Roorkee", {| lat := 29.8543; lng := 77.8880 |})
  ]%float.

(** The table is an object literal, so [CITY_COORDINATES[key]] also finds the
    members it inherits from [Object.prototype].  Each of them is truthy (a
    function, or the prototype itself for [__proto__]) and has neither a
    [lat] nor a [lng] property. *)
Definition Object_prototype_members : list string :=
  ["constructor"; "__defineGetter__"; "__defineSetter__"; "hasOwnProperty";
   "__lookupGetter__"; "__lookupSetter__"; "isPrototypeOf";
   "propertyIsEnumerable"; "toString"; "valueOf"; "__proto__";
   "toLocaleString"].

(** ** Objects and the component state

    A [Report[]] holds references; [ReportRef] is the identity of a Report
    object and the heap gives its fields. *)

Definition ReportRef := nat.

Definition Heap := ReportRef -> Report.

(** [Set<Report>]: the members in insertion order, without repetition.
    [forEach] visits them in that order. *)
Definition Set_add (x : ReportRef) (s : list ReportRef) : list ReportRef :=
  if decide (x ∈ s) then s else s ++ [x].

Definition Set_new (l : list ReportRef) : list ReportRef :=
  fold_left (fun s x => Set_add x s) l [].

Definition Set_delete (x : ReportRef) (s : list ReportRef) : list ReportRef :=
  filter (fun y => y ≠ x) s.

Definition Set_size (s : list ReportRef) : nat := length s.

Definition Set_forEach {A} (f : A -> ReportRef -> A) (s : list ReportRef) (a : A) : A :=
  fold_left f s a.

(** The props and the [useState] cells of [ReportList] that the routing
    code reads or writes. *)
Record ReportListState := {
  heap : Heap;
  reports : list ReportRef;
  selectedReportIds : gset string;
  showRouteModal : bool;
  optimizedRoute : list ReportRef;
}.

Definition setOptimizedRoute (route : list ReportRef) (s : ReportListState) :=
  {| heap := heap s; reports := reports s;
     selectedReportIds := selectedReportIds s;
     showRouteModal := showRouteModal s;
     optimizedRoute := route |}.

Definition setShowRouteModal (b : bool) (s : ReportListState) :=
  {| heap := heap s; reports := reports s;
     selectedReportIds := selectedReportIds s;
     showRouteModal := b;
     optimizedRoute := optimizedRoute s |}.

(** The local variables of the [while] loop of [handleOptimizeRoute]. *)
Record LoopState := {
  route : list ReportRef;
  unvisited : list ReportRef;
  current : ReportRef;
}.

Section Routing.

Context (M : MathObject).

(** ** Helper: distance calculation *)

Definition deg2rad (deg : float) : float := (deg * (Math_PI / 180))%float.

Definition getDistanceFromLatLonInKm (lat1 lon1 lat2 lon2 : float) : float :=
  let R := 6371%float in
  let dLat := deg2rad (lat2 - lat1) in
  let dLon := deg2rad (lon2 - lon1) in
  let a :=
    (Math_sin M (dLat / 2) * Math_sin M (dLat / 2) +
     Math_cos M (deg2rad lat1) * Math_cos M (deg2rad lat2) *
     Math_sin M (dLon / 2) * Math_sin M (dLon / 2))%float in
  let c := (2 * Math_atan2 M (Math_sqrt a) (Math_sqrt (1 - a)))%float in
  (R * c)%float.

(** ** Helper to safely get coordinates

    For a [centerCity] that names an inherited member the helper returns
    [{ lat: undefined, lng: undefined }].  Every use of these fields is
    numeric, and [undefined] converts to NaN: the record holds NaN. *)

Definition getCoords (h : Heap) (r : ReportRef) : LatLng :=
  match coordinates (h r) with
  | Some c => {| lat := latitude c; lng := longitude c |}
  | None =>
      match CITY_COORDINATES !! centerCity (h r) with
      | Some cityCoords => {| lat := lat cityCoords; lng := lng cityCoords |}
      | None =>
          if decide (centerCity (h r) ∈ Object_prototype_members)
          then {| lat := nan; lng := nan |}
          else {| lat := 0; lng := 0 |}
      end
  end.

(** Distance between the resolved coordinates of two reports, as computed
    at both call sites. *)
Definition distanceBetween (h : Heap) (a b : ReportRef) : float :=
  let c1 := getCoords h a in
  let c2 := getCoords h b in
  getDistanceFromLatLonInKm (lat c1) (lng c1) (lat c2) (lng c2).

(** ** Route optimisation (greedy nearest neighbour) *)

Definition selectedReports (s : ReportListState) : list ReportRef :=
  filter (fun r => id (heap s r) ∈ selectedReportIds s) (reports s).

(** The callback of [unvisited.forEach]; [acc] is the pair of the captured
    variables [nearest] and [minDist]. *)
Definition visitCandidate (h : Heap) (c1 : LatLng)
    (acc : option ReportRef * float) (candidate : ReportRef)
    : option ReportRef * float :=
  let c2 := getCoords h candidate in
  let dist := getDistanceFromLatLonInKm (lat c1) (lng c1) (lat c2) (lng c2) in
  if (dist <? snd acc)%float then (Some candidate, dist) else acc.

Definition scanUnvisited (h : Heap) (st : LoopState) : option ReportRef * float :=
  let c1 := getCoords h (current st) in
  Set_forEach (visitCandidate h c1) (unvisited st) (None, infinity).

(** One evaluation of the loop condition and body.  [None] means that the
    loop is left: the condition is false or [break] is reached. *)
Definition loop_body (h : Heap) (st : LoopState) : option LoopState :=
  if bool_decide (0 < Set_size (unvisited st)) then
    match fst (scanUnvisited h st) with
    | Some nearest =>
        Some {| route := route st ++ [nearest];
                unvisited := Set_delete nearest (unvisited st);
                current := nearest |}
    | None => None
    end
  else None.

(** The candidate kept by the scan is a member of the set, so deleting it
    makes the set smaller: this is the variant of the [while] loop. *)
Lemma visitCandidate_member h c1 l acc n :
  fst (fold_left (visitCandidate h c1) l acc) = Some n ->
  n ∈ l \/ fst acc = Some n.
Proof.
  revert acc. induction l as [|x l IH]; intros acc Hn; simpl in *.
  - by right.
  - destruct (IH _ Hn) as [Hl|Hacc].
    + left. by right.
    + unfold visitCandidate in Hacc.
      destruct (_ <? _)%float; simpl in Hacc.
      * left. injection Hacc as ->. by left.
      * by right.
Qed.

Lemma Set_delete_shrinks x s :
  x ∈ s -> length (Set_delete x s) < length s.
Proof.
  unfold Set_delete. induction s as [|y s IH]; intros Hx.
  - by apply elem_of_nil in Hx.
  - rewrite filter_cons. destruct (decide (y ≠ x)) as [Hne|Heq]; simpl.
    + apply elem_of_cons in Hx as [->|Hx]; [done|].
      specialize (IH Hx). lia.
    + pose proof (length_filter (fun y => y ≠ x) s). lia.
Qed.

Lemma loop_body_decreases h st st' :
  loop_body h st = Some st' ->
  length (unvisited st') < length (unvisited st).
Proof.
  unfold loop_body, scanUnvisited, Set_forEach.
  case_bool_decide; [|done].
  destruct (fst (fold_left _ _ _)) as [n|] eqn:Hscan; [|done].
  intros [= <-]; simpl.
  apply Set_delete_shrinks.
  by destruct (visitCandidate_member _ _ _ _ _ Hscan).
Qed.

(** The [while] loop: it runs [loop_body] until the loop is left and returns
    the final values of the local variables. *)
Equations while_loop (h : Heap) (st : LoopState) : LoopState
  by wf (length (unvisited st)) lt :=
  while_loop h st with inspect (loop_body h st) := {
    | exist _ (Some st') Hbody := while_loop h st';
    | exist _ None _ := st }.
Next Obligation. by apply loop_body_decreases with h. Qed.

(** The number of nearest-neighbour steps the loop performs, i.e. of
    iterations that append a stop. *)
Equations iterations (h : Heap) (st : LoopState) : nat
  by wf (length (unvisited st)) lt :=
  iterations h st with inspect (loop_body h st) := {
    | exist _ (Some st') Hbody := S (iterations h st');
    | exist _ None _ := 0 }.
Next Obligation. by apply loop_body_decreases with h. Qed.

(** The local variables on entry to the loop. *)
Definition loop_entry (first : ReportRef) (rest : list ReportRef) : LoopState :=
  {| route := [first]; unvisited := Set_new rest; current := first |}.

Definition handleOptimizeRoute (s : ReportListState) : ReportListState :=
  let selected := selectedReports s in
  if bool_decide (length selected < 2) then s
  else
    match selected with
    | [] => s
    | first :: rest =>
        let final := while_loop (heap s) (loop_entry first rest) in
        setShowRouteModal true (setOptimizedRoute (route final) s)
    end.

(** ** The stop list of the route modal

    For each stop the modal computes [distToNext] (left at 0 without a
    successor) and renders the [km to next] line only when [nextNode] is
    defined; [leg] is the rendered distance. *)

Record RouteItem := {
  node : ReportRef;
  idx : nat;
  distToNext : float;
  leg : option float;
}.

Definition routeItem (h : Heap) (optimizedRoute : list ReportRef)
    (idx : nat) (node : ReportRef) : RouteItem :=
  let nextNode := optimizedRoute !! (idx + 1) in
  let distToNext :=
    match nextNode with
    | Some nextNode =>
        let c1 := getCoords h node in
        let c2 := getCoords h nextNode in
        getDistanceFromLatLonInKm (lat c1) (lng c1) (lat c2) (lng c2)
    | None => 0%float
    end in
  {| node := node; idx := idx; distToNext := distToNext;
     leg := match nextNode with Some _ => Some distToNext | None => None end |}.

Definition routeItems (h : Heap) (optimizedRoute : list ReportRef) : list RouteItem :=
  imap (routeItem h optimizedRoute) optimizedRoute.

End Routing.

(** * The rest of the dashboard

    The selection and filter logic of [ReportList], the data handed to the
    route map, the status update of [App] and the view update of
    [LocationInput]. *)

(** ** Analysis records (types.ts) *)

Inductive Severity := Low | Medium | High | Critical.

Record AnalysisResult := {
  isWaste : bool;
  severity : Severity;
  wasteType : string;
  summary : string;
  materials : list string;
  isRecyclable : bool;
  estimatedQuantity : string;
  cleanupRecommendation : string;
  confidenceScore : float;
}.

(** The [aiAnalysis] field of the Report objects, kept beside the heap;
    [None] is an absent field. *)
Definition Analyses := ReportRef -> option AnalysisResult.

#[global] Instance UserRole_eq_dec : EqDecision UserRole.
Proof. solve_decision. Defined.

#[global] Instance ReportStatus_eq_dec : EqDecision ReportStatus.
Proof. solve_decision. Defined.

(** The string values of the enum and of the severity union. *)
Definition ReportStatus_value (st : ReportStatus) : string :=
  match st with
  | PENDING => "PENDING"
  | VERIFIED => "VERIFIED"
  | REJECTED => "REJECTED"
  | COLLECTED => "COLLECTED"
  end.

Definition Severity_value (sv : Severity) : string :=
  match sv with
  | Low => "Low"
  | Medium => "Medium"
  | High => "High"
  | Critical => "Critical"
  end.

(** ** Filters and selection of [ReportList] *)

(** The [userRole] prop and the four filter cells. *)
Record ReportListFilters := {
  props_userRole : UserRole;
  filterStatus : string;
  filterCity : string;
  filterSeverity : string;
  filterWasteType : string;
}.

(** [r.aiAnalysis?.wasteType || 'Unspecified']: the empty string is falsy. *)
Definition wasteTypeOrUnspecified (a : option AnalysisResult) : string :=
  match a with
  | Some x => if decide (wasteType x = "") then "Unspecified" else wasteType x
  | None => "Unspecified"
  end.

(** The callback of [reports.filter] in the filter logic; each [if] of the
    source that returns [false] is one conjunct. *)
Definition isVisible (f : ReportListFilters) (r : Report)
    (a : option AnalysisResult) : bool :=
  negb (bool_decide (props_userRole f = Volunteer) &&
        (bool_decide (status r ≠ VERIFIED) && bool_decide (status r ≠ COLLECTED)))
  && negb (bool_decide (filterStatus f ≠ "ALL") &&
           bool_decide (ReportStatus_value (status r) ≠ filterStatus f))
  && negb (bool_decide (filterCity f ≠ "ALL") &&
           bool_decide (centerCity r ≠ filterCity f))
  && negb (bool_decide (filterSeverity f ≠ "ALL") &&
           match a with
           | Some x => bool_decide (Severity_value (severity x) ≠ filterSeverity f)
           | None => true
           end)
  && negb (bool_decide (filterWasteType f ≠ "ALL") &&
           bool_decide (wasteTypeOrUnspecified a ≠ filterWasteType f)).

Definition visibleReports (f : ReportListFilters) (an : Analyses)
    (s : ReportListState) : list ReportRef :=
  filter (fun r => isVisible f (heap s r) (an r)) (reports s).

(** ** The order of [Array.prototype.sort]

    Without a comparator the elements are compared as strings, code unit by
    code unit (UTF-16).  The strings of the model are the UTF-8 bytes of the
    JavaScript strings; their code units are recovered by decoding. *)

(** The code points of a sequence of UTF-8 bytes; a malformed sequence
    yields U+FFFD. *)
Fixpoint utf8_codePoints (bytes : list N) : list N :=
  match bytes with
  | [] => []
  | b0 :: rest =>
      if (b0 <? 0x80)%N then b0 :: utf8_codePoints rest
      else if ((0xC0 <=? b0) && (b0 <? 0xE0))%N then
        match rest with
        | b1 :: rest1 =>
            (N.land b0 0x1F * 0x40 + N.land b1 0x3F)%N :: utf8_codePoints rest1
        | _ => [0xFFFD%N]
        end
      else if ((0xE0 <=? b0) && (b0 <? 0xF0))%N then
        match rest with
        | b1 :: b2 :: rest2 =>
            (N.land b0 0x0F * 0x1000 + N.land b1 0x3F * 0x40 + N.land b2 0x3F)%N
              :: utf8_codePoints rest2
        | _ => [0xFFFD%N]
        end
      else if ((0xF0 <=? b0) && (b0 <? 0xF8))%N then
        match rest with
        | b1 :: b2 :: b3 :: rest3 =>
            (N.land b0 0x07 * 0x40000 + N.land b1 0x3F * 0x1000
             + N.land b2 0x3F * 0x40 + N.land b3 0x3F)%N
              :: utf8_codePoints rest3
        | _ => [0xFFFD%N]
        end
      else 0xFFFD%N :: utf8_codePoints rest
  end.

(** The UTF-16 code units of a code point: itself, or a surrogate pair. *)
Definition utf16_codeUnits (cp : N) : list N :=
  if (cp <? 0x10000)%N then [cp]
  else [(0xD800 + (cp - 0x10000) / 0x400)%N; (0xDC00 + (cp - 0x10000) mod 0x400)%N].

Definition codeUnits (s : string) : list N :=
  flat_map utf16_codeUnits
    (utf8_codePoints (map Ascii.N_of_ascii (String.list_ascii_of_string s))).

(** [x] is not after [y]: the first differing code unit decides, and a proper
    prefix comes first. *)
Fixpoint codeUnits_leb (x y : list N) : bool :=
  match x, y with
  | [], _ => true
  | _ :: _, [] => false
  | a :: x', b :: y' =>
      if (a <? b)%N then true
      else if (b <? a)%N then false
      else codeUnits_leb x' y'
  end.

Definition sortCompare_le (x y : string) : Prop :=
  codeUnits_leb (codeUnits x) (codeUnits y) = true.

#[global] Instance sortCompare_le_dec : RelDecision sortCompare_le.
Proof. intros x y. unfold sortCompare_le. apply _. Defined.

(** [Set<string>] in insertion order, as used for the waste types. *)
Definition StringSet_add (x : string) (s : list string) : list string :=
  if decide (x ∈ s) then s else s ++ [x].

(** [uniqueWasteTypes]: the truthy waste types of the reports, collected in
    a set and sorted by [Array.prototype.sort] without comparator, i.e. by
    UTF-16 code units.  The elements are distinct strings, so every sorting
    algorithm yields the same array. *)
Definition collectWasteTypes (an : Analyses)
    (types : list string) (r : ReportRef) : list string :=
  match an r with
  | Some x => if decide (wasteType x = "") then types else StringSet_add (wasteType x) types
  | None => types
  end.

Definition uniqueWasteTypes (an : Analyses) (s : ReportListState) : list string :=
  merge_sort sortCompare_le (fold_left (collectWasteTypes an) (reports s) []).

Definition setSelectedReportIds (ids : gset string) (s : ReportListState) :=
  {| heap := heap s; reports := reports s;
     selectedReportIds := ids;
     showRouteModal := showRouteModal s;
     optimizedRoute := optimizedRoute s |}.

Definition toggleSelection (i : string) (s : ReportListState) : ReportListState :=
  let newSet := selectedReportIds s in
  setSelectedReportIds
    (if decide (i ∈ newSet) then newSet ∖ {[i]} else newSet ∪ {[i]}) s.

Definition toggleSelectAll (f : ReportListFilters) (an : Analyses)
    (s : ReportListState) : ReportListState :=
  if decide (size (selectedReportIds s) = length (visibleReports f an s)) then
    setSelectedReportIds ∅ s
  else
    let verifiedIds :=
      map (fun r => id (heap s r))
        (filter (fun r => status (heap s r) = VERIFIED) (visibleReports f an s)) in
    setSelectedReportIds (list_to_set verifiedIds) s.

(** The condition under which the Generate Route button is rendered. *)
Definition routeButtonShown (f : ReportListFilters) (s : ReportListState) : bool :=
  bool_decide (props_userRole f = Volunteer) &&
  bool_decide (2 <= size (selectedReportIds s)).

(** ** The route map effect

    What the effect hands to the map library, in the order of the calls:
    the view set on creation ([setView]), one numbered marker per stop and,
    for more than one stop, the connecting line followed by [fitBounds] on
    the same points, which replaces the view set on creation.  [container]
    and [leaflet] stand for [routeMapContainerRef.current] and [window.L]
    being present, when the effect runs and still when its delayed callback
    runs.  Of the popup text the city is kept; the tile layer and the
    removal of a previous map are constant and left out. *)

Record RouteMarker := {
  markerAt : float * float;
  markerNumber : nat;
  markerColor : string;
  popupCity : string;
}.

Record RouteMap := {
  viewCenter : float * float;
  viewZoom : nat;
  markers : list RouteMarker;
  polyline : option (list (float * float));
  fitBounds : option (list (float * float) * (nat * nat));
}.

Definition routeMarker (h : Heap) (index : nat) (report : ReportRef) : RouteMarker :=
  let coords := getCoords h report in
  {| markerAt := (lat coords, lng coords);
     markerNumber := index + 1;
     markerColor := if decide (index = 0) then "#10b981" else "#3b82f6";
     popupCity := centerCity (h report) |}.

Definition routeMapEffect (container leaflet : bool) (s : ReportListState)
    : option RouteMap :=
  if showRouteModal s && bool_decide (0 < length (optimizedRoute s))
     && container && leaflet then
    match optimizedRoute s with
    | [] => None
    | first :: _ =>
        let startCoords := getCoords (heap s) first in
        let latLngs :=
          map (fun report => let coords := getCoords (heap s) report in
                             (lat coords, lng coords)) (optimizedRoute s) in
        Some {| viewCenter := (lat startCoords, lng startCoords);
                viewZoom := 13;
                markers := imap (routeMarker (heap s)) (optimizedRoute s);
                polyline := if bool_decide (1 < length latLngs)
                            then Some latLngs else None;
                fitBounds := if bool_decide (1 < length latLngs)
                             then Some (latLngs, (50, 50)) else None |}
    end
  else None.

(** ** The status update of [App]

    [App] keeps the reports as an array of values; the updater that
    [handleUpdateStatus] passes to [setReports] copies the reports with the
    given id and replaces their status.  The toast is left out. *)

Definition withStatus (newStatus : ReportStatus) (r : Report) : Report :=
  {| id := id r; userId := userId r; status := newStatus;
     timestamp := timestamp r; userRole := userRole r;
     centerCity := centerCity r; manualWasteType := manualWasteType r;
     coordinates := coordinates r; description := description r;
     reporterName := reporterName r; reporterContact := reporterContact r |}.

Definition handleUpdateStatus (i : string) (newStatus : ReportStatus)
    (prev : list Report) : list Report :=
  map (fun r => if decide (id r = i) then withStatus newStatus r else r) prev.

(** The reports a selection denotes, on values. *)
Definition selectedValues (ids : gset string) (rs : list Report) : list Report :=
  filter (fun r => id r ∈ ids) rs.

(** ** The view update of [LocationInput] *)

(** [ToBoolean] on a number: false for +0, -0 and NaN. *)
Definition truthy (x : float) : bool := ((x <? 0) || (0 <? x))%float.

(** The arguments of [map.setView] and of the marker, when the effect
    reaches them; [None] when [lat && lng] is falsy. *)
Definition viewUpdate (coordinates : option GeoCoordinates) (selectedCity : string)
    : option (float * float * nat) :=
  let target : option (float * float * nat) :=
    match coordinates with
    | Some c => Some (latitude c, longitude c, 16)
    | None =>
        if decide (selectedCity = "") then None
        else match CITY_COORDINATES !! selectedCity with
             | Some cityCoords => Some (lat cityCoords, lng cityCoords, 12)
             | None => None
             end
    end in
  match target with
  | Some (lat, lng, zoom) =>
      if truthy lat && truthy lng then Some (lat, lng, zoom) else None
  | None => None
  end.

(** ** The status buttons of a report card

    The status updates a card offers: Reject and Verify to an admin on a
    pending report, Mark As Collected to a volunteer on a verified one. *)
Definition offeredStatusUpdates (role : UserRole) (st : ReportStatus)
    : list ReportStatus :=
  (if decide (role = Admin /\ st = PENDING) then [REJECTED; VERIFIED] else []) ++
  (if decide (role = Volunteer /\ st = VERIFIED) then [COLLECTED] else []).

(** Progress of a report through its life cycle. *)
Definition statusRank (st : ReportStatus) : nat :=
  match st with
  | PENDING => 0
  | VERIFIED => 1
  | REJECTED => 2
  | COLLECTED => 2
  end.

(** The ids of the reports of a list. *)
Definition reportIds (s : ReportListState) (l : list ReportRef) : list string :=
  map (fun r => id (heap s r)) l.

(** A NaN component in a resolved coordinate. *)
Definition hasNaN (c : LatLng) : Prop := lat c = nan \/ lng c = nan.

(** * Vocabulary of the statements *)

(** A number is finite when its magnitude is below [Infinity]. *)
Definition is_finite (x : float) : bool := (abs x <? infinity)%float.

Section Vocabulary.

Context (M : MathObject) (h : Heap).

(** The distance computed for a candidate by the [forEach] callback. *)
Definition candidateDist (c1 : LatLng) (c : ReportRef) : float :=
  let c2 := getCoords h c in
  getDistanceFromLatLonInKm M (lat c1) (lng c1) (lat c2) (lng c2).

(** What the scan has established after visiting the members [l]. *)
Definition scanned (c1 : LatLng) (l : list ReportRef)
    (acc : option ReportRef * float) : Prop :=
  match fst acc with
  | None =>
      snd acc = infinity /\
      forall c, c ∈ l -> (candidateDist c1 c <? infinity)%float = false
  | Some n =>
      snd acc = candidateDist c1 n /\
      (candidateDist c1 n <? infinity)%float = true /\
      exists l1 l2, l = l1 ++ n :: l2 /\
        (forall c, c ∈ l1 ->
           (candidateDist c1 c <? candidateDist c1 n)%float = false /\
           (candidateDist c1 c =? candidateDist c1 n)%float = false) /\
        (forall c, c ∈ l2 -> (candidateDist c1 c <? candidateDist c1 n)%float = false)
  end.

(** All distances between distinct selected reports are numbers below
    [Infinity] (in particular none is NaN). *)
Definition finite_distances (selected : list ReportRef) : Prop :=
  forall a b, a ∈ selected -> b ∈ selected -> a ≠ b ->
    (distanceBetween M h a b <? infinity)%float = true.

(** [Math.sin(deg2rad(d) / 2)], the factor that occurs squared in [a]. *)
Definition halfSin (d : float) : float := Math_sin M (deg2rad d / 2).

End Vocabulary.

(** What holds of the loop for every selection. *)
Definition bounded (first : ReportRef) (k : nat) (st : LoopState) : Prop :=
  head (route st) = Some first /\
  length (route st) + length (unvisited st) <= k.

(** What holds of the loop when the selected reports are distinct objects:
    route and unvisited set partition the selection. *)
Definition partitions (selected : list ReportRef) (st : LoopState) : Prop :=
  route st ++ unvisited st ≡ₚ selected /\
  current st ∈ route st.

(** * A runnable [Math] object and sample data *)

Module Sample.

(** Truncated Maclaurin series; accurate enough on the short arcs of the
    examples below (Mumbai to Pune comes out as 120.15 km). *)
Definition series_sin (x : float) : float :=
  (let x2 := x * x in
   x * (1 - x2 / 6 * (1 - x2 / 20 * (1 - x2 / 42 * (1 - x2 / 72)))))%float.

Definition series_cos (x : float) : float :=
  (let x2 := x * x in
   1 - x2 / 2 * (1 - x2 / 12 * (1 - x2 / 30 * (1 - x2 / 56))))%float.

Definition series_atan (t : float) : float :=
  (let t2 := t * t in
   t * (1 - t2 * (1 / 3 - t2 * (1 / 5 - t2 * (1 / 7 - t2 * (1 / 9))))))%float.

Definition series_atan2 (y x : float) : float :=
  if (x <? y)%float then (Math_PI / 2 - series_atan (x / y))%float
  else series_atan (y / x).

Definition series_Math : MathObject :=
  {| Math_sin := series_sin; Math_cos := series_cos; Math_atan2 := series_atan2 |}.

Definition report (i city : string) (c : option GeoCoordinates) : Report :=
  {| id := i; userId := "user-1"; status := VERIFIED; timestamp := 0%float;
     userRole := Citizen; centerCity := city; manualWasteType := "Plastic";
     coordinates := c; description := ""; reporterName := "";
     reporterContact := "" |}.

(** Objects 0 to 2 resolve through the city table, 3 carries a precise
    coordinate, 4 names an unregistered city, 5 carries a NaN latitude and
    the remaining ones are further reports from Pune. *)
Definition objects : Heap := fun r =>
  match r with
  | 0 => report "r0" "Mumbai" None
  | 1 => report "r1" "Delhi" None
  | 2 => report "r2" "Pune" None
  | 3 => report "r3" "Bengaluru"
           (Some {| latitude := 12.9352%float; longitude := 77.6245%float |})
  | 4 => report "r4" "Atlantis" None
  | 5 => report "r5" "Mumbai"
           (Some {| latitude := nan; longitude := 72.8777%float |})
  | _ => report "r6" "Pune" None
  end.

Definition dashboard (rs : list ReportRef) (ids : list string) : ReportListState :=
  {| heap := objects; reports := rs; selectedReportIds := list_to_set ids;
     showRouteModal := false; optimizedRoute := [] |}.

(** Scenario 1 of the specification: Mumbai, Delhi and Pune selected. *)
Definition three_cities : ReportListState :=
  dashboard [0; 1; 2; 3] ["r0"; "r1"; "r2"].

(** A selection of two reports, one of them with a NaN latitude. *)
Definition with_NaN : ReportListState :=
  dashboard [0; 5] ["r0"; "r5"].

(** Scenario 2: one of three selected reports names an unregistered city. *)
Definition with_unregistered : ReportListState :=
  dashboard [0; 4; 2] ["r0"; "r4"; "r2"].

(** Only one report selected. *)
Definition single : ReportListState :=
  dashboard [0; 1; 2] ["r1"].

End Sample.

(** ** Sample analyses, filters and states for the dashboard *)

Module DashboardSample.

Definition analysis (type : string) (sv : Severity) : AnalysisResult :=
  {| isWaste := true; severity := sv; wasteType := type; summary := "";
     materials := ["Plastic"]; isRecyclable := false; estimatedQuantity := "";
     cleanupRecommendation := ""; confidenceScore := 1%float |}.

(** Report 2 has no analysis and report 3 an analysis without waste type. *)
Definition analyses : Analyses := fun r =>
  match r with
  | 0 => Some (analysis "Domestic" High)
  | 1 => Some (analysis "Industrial" Critical)
  | 2 => None
  | 3 => Some (analysis "" Low)
  | _ => Some (analysis "Domestic" Medium)
  end.

Definition filters (role : UserRole) (st type : string) : ReportListFilters :=
  {| props_userRole := role; filterStatus := st; filterCity := "ALL";
     filterSeverity := "ALL"; filterWasteType := type |}.

(** The To Be Cleaned view of a volunteer. *)
Definition toBeCleaned : ReportListFilters := filters Volunteer "VERIFIED" "ALL".

(** Four verified reports, none selected. *)
Definition none_selected : ReportListState := Sample.dashboard [0; 1; 2; 3] [].

(** The reports of [App] as values. *)
Definition stored : list Report := map Sample.objects [0; 1; 2].

(** A report without coordinates whose city field is the name of a member
    inherited from [Object.prototype]. *)
Definition inherited_city : Heap := fun _ => Sample.report "r7" "constructor" None.

End DashboardSample.

(** * Facts about JavaScript numbers

    The comparison and arithmetic facts used below, derived from the IEEE 754
    specification of the primitive operations ([SpecFloat]). *)

Module JSNumber.

Ltac cmp_cases :=
  repeat match goal with
  | |- context [Z.compare ?a ?b] => destruct (Z.compare_spec a b); subst
  | |- context [Pos.compare_cont Eq ?a ?b] =>
      rewrite (Pos.compare_cont_spec a b Eq); simpl;
      destruct (Pos.compare_spec a b); subst
  end; simpl; try congruence; try lia.

(** Order facts, read off the specification [SFcompare]. *)
Lemma SFcompare_Lt_trans x y z :
  SFcompare x y = Some Lt -> SFcompare y z = Some Lt -> SFcompare x z = Some Lt.
Proof.
  destruct x as [[]| []| |[] mx ex], y as [[]| []| |[] my ey], z as [[]| []| |[] mz ez];
    simpl; try congruence; cmp_cases.
Qed.

Lemma SFcompare_Eq_Lt x y z :
  SFcompare x y = Some Eq -> SFcompare y z = Some Lt -> SFcompare x z = Some Lt.
Proof.
  destruct x as [[]| []| |[] mx ex], y as [[]| []| |[] my ey], z as [[]| []| |[] mz ez];
    simpl; try congruence; cmp_cases.
Qed.

Lemma SFcompare_Lt_Gt x y :
  SFcompare x y = Some Lt -> SFcompare y x = Some Gt.
Proof.
  destruct x as [[]| []| |[] mx ex], y as [[]| []| |[] my ey];
    simpl; try congruence; cmp_cases.
Qed.

Lemma ltb_Lt x y : (x <? y)%float = true <-> SFcompare (Prim2SF x) (Prim2SF y) = Some Lt.
Proof.
  rewrite ltb_spec. unfold SFltb.
  destruct (SFcompare _ _) as [[]|]; split; congruence.
Qed.

Lemma eqb_Eq x y : (x =? y)%float = true <-> SFcompare (Prim2SF x) (Prim2SF y) = Some Eq.
Proof.
  rewrite FloatAxioms.eqb_spec. unfold SFeqb.
  destruct (SFcompare _ _) as [[]|]; split; congruence.
Qed.

Lemma ltb_trans x y z :
  (x <? y)%float = true -> (y <? z)%float = true -> (x <? z)%float = true.
Proof. rewrite !ltb_Lt. apply SFcompare_Lt_trans. Qed.

Lemma eqb_ltb_trans x y z :
  (x =? y)%float = true -> (y <? z)%float = true -> (x <? z)%float = true.
Proof. rewrite eqb_Eq, !ltb_Lt. apply SFcompare_Eq_Lt. Qed.

Lemma ltb_asym x y : (x <? y)%float = true -> (y <? x)%float = false.
Proof.
  rewrite ltb_Lt. intros H%SFcompare_Lt_Gt.
  rewrite ltb_spec. unfold SFltb. by rewrite H.
Qed.

Lemma ltb_not_eqb x y : (x <? y)%float = true -> (y =? x)%float = false.
Proof.
  rewrite ltb_Lt. intros H%SFcompare_Lt_Gt.
  rewrite FloatAxioms.eqb_spec. unfold SFeqb. by rewrite H.
Qed.

(** Algebraic facts, read off [SFmul], [SFdiv], [SFsub] and [SFopp]. *)
Lemma binary_round_aux_opp prec emax s m e l :
  binary_round_aux prec emax (negb s) m e l = SFopp (binary_round_aux prec emax s m e l).
Proof.
  unfold binary_round_aux.
  destruct (shr_fexp _ _ _ _ _) as [mrs' e'].
  destruct (shr_fexp _ _ _ _ _) as [mrs'' e''].
  destruct (shr_m mrs''); try reflexivity.
  by destruct (_ <=? _)%Z.
Qed.

Lemma SFmul_comm prec emax x y : SFmul prec emax x y = SFmul prec emax y x.
Proof.
  destruct x as [sx|sx| |sx mx ex], y as [sy|sy| |sy my ey]; simpl;
    try rewrite (xorb_comm sx sy); try reflexivity.
  by rewrite Pos.mul_comm, Z.add_comm.
Qed.

Lemma SFmul_opp_l prec emax x y :
  SFmul prec emax (SFopp x) y = SFopp (SFmul prec emax x y).
Proof.
  destruct x as [sx|sx| |sx mx ex], y as [sy|sy| |sy my ey]; simpl;
    try rewrite <- negb_xorb_l; try reflexivity.
  apply binary_round_aux_opp.
Qed.

Lemma SFdiv_opp_l prec emax x y :
  SFdiv prec emax (SFopp x) y = SFopp (SFdiv prec emax x y).
Proof.
  destruct x as [sx|sx| |sx mx ex], y as [sy|sy| |sy my ey]; simpl;
    try rewrite <- negb_xorb_l; try reflexivity.
  destruct (SFdiv_core_binary _ _ _ _ _ _) as [[mz ez] lz].
  apply binary_round_aux_opp.
Qed.

Lemma binary_round_opp prec emax s m e :
  binary_round prec emax (negb s) m e = SFopp (binary_round prec emax s m e).
Proof.
  unfold binary_round. destruct (shl_align _ _ _) as [mz ez].
  apply binary_round_aux_opp.
Qed.

Lemma binary_normalize_opp prec emax m e :
  m ≠ 0%Z ->
  binary_normalize prec emax (- m) e false = SFopp (binary_normalize prec emax m e false).
Proof.
  destruct m as [|p|p]; [done| |]; intros _; simpl.
  - apply (binary_round_opp prec emax false).
  - by rewrite <- (binary_round_opp prec emax true).
Qed.

Lemma SFsub_swap prec emax x y :
  SFsub prec emax y x = SFopp (SFsub prec emax x y) \/
  SFsub prec emax y x = SFsub prec emax x y.
Proof.
  destruct x as [[]|[]| |sx mx ex], y as [[]|[]| |sy my ey]; simpl;
    try (by left); try (by right).
  - left. by rewrite negb_involutive.
  - left. by rewrite negb_involutive.
  - rewrite (Z.min_comm ey ex).
    set (a := SpecFloat.cond_Zopp sx _). set (b := SpecFloat.cond_Zopp sy _).
    destruct (decide (a - b = 0)%Z) as [Hz|Hnz].
    + right. replace (b - a)%Z with 0%Z by lia. by rewrite Hz.
    + left. replace (b - a)%Z with (- (a - b))%Z by lia.
      by apply binary_normalize_opp.
Qed.

Lemma mul_comm x y : (x * y = y * x)%float.
Proof. apply Prim2SF_inj. rewrite !mul_spec. apply SFmul_comm. Qed.

Lemma mul_opp_l x y : ((- x) * y = - (x * y))%float.
Proof. apply Prim2SF_inj. rewrite opp_spec, !mul_spec, opp_spec. apply SFmul_opp_l. Qed.

Lemma mul_opp_r x y : (x * (- y) = - (x * y))%float.
Proof. by rewrite mul_comm, mul_opp_l, mul_comm. Qed.

Lemma div_opp_l x y : ((- x) / y = - (x / y))%float.
Proof. apply Prim2SF_inj. rewrite opp_spec, !div_spec, opp_spec. apply SFdiv_opp_l. Qed.

Lemma opp_involutive x : (- - x = x)%float.
Proof.
  apply Prim2SF_inj. rewrite !opp_spec.
  destruct (Prim2SF x); simpl; by rewrite ?negb_involutive.
Qed.

Lemma sub_swap x y : (y - x = - (x - y))%float \/ (y - x = x - y)%float.
Proof.
  destruct (SFsub_swap prec emax (Prim2SF x) (Prim2SF y)) as [H|H]; [left|right];
    apply Prim2SF_inj; rewrite ?opp_spec, !sub_spec; exact H.
Qed.

Lemma sub_nan_l x : (nan - x)%float = nan.
Proof. apply Prim2SF_inj. by rewrite sub_spec. Qed.

Lemma add_nan_l x : (nan + x)%float = nan.
Proof. apply Prim2SF_inj. by rewrite add_spec. Qed.

Lemma div_nan_l x : (nan / x)%float = nan.
Proof. apply Prim2SF_inj. by rewrite div_spec. Qed.

Lemma ltb_nan_r x : (x <? nan)%float = false.
Proof.
  rewrite ltb_spec. change (Prim2SF nan) with S754_nan.
  by destruct (Prim2SF x) as [[]|[]| |].
Qed.

Lemma sub_diag x : is_finite x = true -> (x - x)%float = 0%float.
Proof.
  unfold is_finite. rewrite ltb_spec, abs_spec. intros Hfin.
  apply Prim2SF_inj. rewrite sub_spec.
  change (Prim2SF 0) with (S754_zero false).
  destruct (Prim2SF x) as [[]|[]| |s m e]; try done.
  unfold SF64sub, SFsub. by rewrite Z.sub_diag.
Qed.

Lemma SFcompare_swap x y :
  SFcompare y x = CompOpp <$> SFcompare x y.
Proof.
  destruct x as [[]| []| |[] mx ex], y as [[]| []| |[] my ey]; simpl; try done;
    cmp_cases.
Qed.

(** On numbers the order is total: what is not above is at most. *)
Lemma not_ltb_leb x y :
  (x =? x)%float = true -> (y =? y)%float = true ->
  (x <? y)%float = false -> (y <=? x)%float = true.
Proof.
  rewrite !FloatAxioms.eqb_spec, ltb_spec, leb_spec.
  unfold SFeqb, SFltb, SFleb. rewrite (SFcompare_swap (Prim2SF x) (Prim2SF y)).
  intros Hx Hy.
  assert (exists c, SFcompare (Prim2SF x) (Prim2SF y) = Some c) as [c ->].
  { destruct (Prim2SF x) as [?|?| |? ? ?], (Prim2SF y) as [?|?| |? ? ?];
      simpl in *; try done; eauto. }
  by destruct c.
Qed.

Lemma ltb_is_number x y : (x <? y)%float = true -> (x =? x)%float = true.
Proof.
  rewrite FloatAxioms.eqb_spec, ltb_spec. unfold SFeqb, SFltb.
  destruct (Prim2SF x) as [[]| []| |[] mx ex], (Prim2SF y) as [[]| []| |[] my ey];
    simpl; try done.
  all: by rewrite Z.compare_refl, Pos.compare_cont_refl.
Qed.

Lemma eqb_not_ltb x y : (x =? y)%float = true -> (x <? y)%float = false.
Proof.
  rewrite FloatAxioms.eqb_spec, ltb_spec. unfold SFeqb, SFltb.
  by destruct (SFcompare _ _) as [[]|].
Qed.

End JSNumber.

(** * Sets of report objects *)

Lemma Set_add_elem x y s : y ∈ Set_add x s <-> y = x \/ y ∈ s.
Proof.
  unfold Set_add. destruct (decide (x ∈ s)).
  - split; [by right|]. by intros [->|].
  - rewrite elem_of_app, list_elem_of_singleton. tauto.
Qed.

Lemma Set_add_NoDup x s : NoDup s -> NoDup (Set_add x s).
Proof.
  unfold Set_add. intros Hs. destruct (decide (x ∈ s)); [done|].
  apply NoDup_app. split_and!; [done| |apply NoDup_singleton].
  intros y Hy ->%list_elem_of_singleton. done.
Qed.

Lemma Set_fold_add l s :
  NoDup s ->
  NoDup (fold_left (fun s x => Set_add x s) l s) /\
  forall y, y ∈ fold_left (fun s x => Set_add x s) l s <-> y ∈ s \/ y ∈ l.
Proof.
  revert s. induction l as [|x l IH]; intros s Hs; simpl.
  - split; [done|]. intros y. rewrite elem_of_nil. tauto.
  - destruct (IH (Set_add x s) (Set_add_NoDup x s Hs)) as [Hnd Hel].
    split; [done|]. intros y. rewrite Hel, Set_add_elem, elem_of_cons. tauto.
Qed.

Lemma Set_new_NoDup l : NoDup (Set_new l).
Proof. apply Set_fold_add, NoDup_nil_2. Qed.

Lemma Set_new_elem l y : y ∈ Set_new l <-> y ∈ l.
Proof.
  unfold Set_new. destruct (Set_fold_add l [] (NoDup_nil_2)) as [_ H].
  rewrite H, elem_of_nil. tauto.
Qed.

Lemma Set_fold_add_fresh l s :
  NoDup (s ++ l) -> fold_left (fun s x => Set_add x s) l s = s ++ l.
Proof.
  revert s. induction l as [|x l IH]; intros s Hs; simpl.
  - by rewrite app_nil_r.
  - unfold Set_add at 2. destruct (decide (x ∈ s)) as [Hin|Hnin].
    + apply NoDup_app in Hs as (_ & Hdisj & _). destruct (Hdisj x Hin). by left.
    + rewrite IH; rewrite <- (assoc_L (++)); done.
Qed.

Lemma Set_new_fresh l : NoDup l -> Set_new l = l.
Proof. intros Hl. by apply (Set_fold_add_fresh l []). Qed.

Lemma Set_new_length l : length (Set_new l) <= length l.
Proof.
  apply submseteq_length, NoDup_submseteq; [apply Set_new_NoDup|].
  intros x. by rewrite Set_new_elem.
Qed.

Lemma Set_delete_elem x y s : y ∈ Set_delete x s <-> y ≠ x /\ y ∈ s.
Proof. unfold Set_delete. by rewrite list_elem_of_filter. Qed.

Lemma Set_delete_NoDup x s : NoDup s -> NoDup (Set_delete x s).
Proof. apply NoDup_filter. Qed.

Lemma Set_delete_Permutation x s :
  NoDup s -> x ∈ s -> s ≡ₚ x :: Set_delete x s.
Proof.
  intros Hs Hx. apply NoDup_Permutation; [done| |].
  - apply NoDup_cons. split; [|by apply Set_delete_NoDup].
    rewrite Set_delete_elem. tauto.
  - intros y. rewrite elem_of_cons, Set_delete_elem.
    destruct (decide (y = x)) as [->|]; tauto.
Qed.

(** * The scan of the unvisited set *)

Section Scan.

Context (M : MathObject) (h : Heap) (c1 : LatLng).

Lemma scanned_start : scanned M h c1 [] (None, infinity).
Proof. split; [done|]. by intros c ?%elem_of_nil. Qed.

Lemma not_ltb_below x d m :
  (x <? m)%float = false -> (d <? m)%float = true ->
  (x <? d)%float = false /\ (x =? d)%float = false.
Proof.
  intros Hx Hd. split.
  - destruct (x <? d)%float eqn:E; [|done].
    by rewrite (JSNumber.ltb_trans _ _ _ E Hd) in Hx.
  - destruct (x =? d)%float eqn:E; [|done].
    by rewrite (JSNumber.eqb_ltb_trans _ _ _ E Hd) in Hx.
Qed.

Lemma scanned_step l acc x :
  scanned M h c1 l acc -> scanned M h c1 (l ++ [x]) (visitCandidate M h c1 acc x).
Proof.
  unfold scanned, visitCandidate. fold (candidateDist M h c1 x).
  destruct acc as [[n|] m]; simpl.
  - intros [-> (Hfin & l1 & l2 & -> & H1 & H2)].
    destruct (candidateDist M h c1 x <? candidateDist M h c1 n)%float eqn:E; simpl.
    + split_and!; [done|by eapply JSNumber.ltb_trans|].
      exists (l1 ++ n :: l2), []. split_and!; [done| |by intros c ?%elem_of_nil].
      intros c [Hc|[->|Hc]%elem_of_cons]%elem_of_app.
      * destruct (H1 c Hc). by apply not_ltb_below with (candidateDist M h c1 n).
      * split; [by apply JSNumber.ltb_asym|by apply JSNumber.ltb_not_eqb].
      * by apply not_ltb_below with (candidateDist M h c1 n); [apply H2|].
    + split_and!; [done..|].
      exists l1, (l2 ++ [x]). split_and!; [by rewrite <- (assoc_L (++))|done|].
      intros c [Hc | ->%list_elem_of_singleton]%elem_of_app; [by apply H2|done].
  - intros [-> Hl].
    destruct (candidateDist M h c1 x <? infinity)%float eqn:E; simpl.
    + split_and!; [done..|].
      exists l, []. split_and!; [done| |by intros c ?%elem_of_nil].
      intros c Hc. by apply not_ltb_below with infinity; [apply Hl|].
    + split; [done|].
      intros c [Hc | ->%list_elem_of_singleton]%elem_of_app; [by apply Hl|done].
Qed.

Lemma scanned_fold l l0 acc :
  scanned M h c1 l0 acc -> scanned M h c1 (l0 ++ l) (fold_left (visitCandidate M h c1) l acc).
Proof.
  revert l0 acc. induction l as [|x l IH]; intros l0 acc H; simpl.
  - by rewrite app_nil_r.
  - rewrite (cons_middle x l0 l), (assoc_L (++)).
    by apply IH, scanned_step.
Qed.

Lemma scan_spec l : scanned M h c1 l (fold_left (visitCandidate M h c1) l (None, infinity)).
Proof. apply (scanned_fold l []), scanned_start. Qed.

End Scan.

(** * The loop of [handleOptimizeRoute] *)

Section Loop.

Context (M : MathObject) (h : Heap).

Lemma while_loop_continue st st' :
  loop_body M h st = Some st' -> while_loop M h st = while_loop M h st'.
Proof.
  intros H. rewrite while_loop_equation_1.
  destruct (inspect (loop_body M h st)) as [[st''|] Heq]; simpl; congruence.
Qed.

Lemma while_loop_exit st :
  loop_body M h st = None -> while_loop M h st = st.
Proof.
  intros H. rewrite while_loop_equation_1.
  destruct (inspect (loop_body M h st)) as [[st''|] Heq]; simpl; congruence.
Qed.

Lemma iterations_continue st st' :
  loop_body M h st = Some st' -> iterations M h st = S (iterations M h st').
Proof.
  intros H. rewrite iterations_equation_1.
  destruct (inspect (loop_body M h st)) as [[st''|] Heq]; simpl; congruence.
Qed.

Lemma iterations_exit st :
  loop_body M h st = None -> iterations M h st = 0.
Proof.
  intros H. rewrite iterations_equation_1.
  destruct (inspect (loop_body M h st)) as [[st''|] Heq]; simpl; congruence.
Qed.

(** The effect of one iteration that stays in the loop. *)
Lemma loop_body_step st st' :
  loop_body M h st = Some st' ->
  exists nearest,
    fst (scanUnvisited M h st) = Some nearest /\
    nearest ∈ unvisited st /\
    st' = {| route := route st ++ [nearest];
             unvisited := Set_delete nearest (unvisited st);
             current := nearest |}.
Proof.
  unfold loop_body. case_bool_decide; [|done].
  destruct (fst (scanUnvisited M h st)) as [n|] eqn:Hscan; [|done].
  intros [= <-]. exists n. split_and!; [done| |done].
  unfold scanUnvisited, Set_forEach in Hscan.
  by destruct (visitCandidate_member _ _ _ _ _ _ Hscan).
Qed.

(** The loop is left only with an empty set or after a scan that kept no
    candidate. *)
Lemma loop_body_leave st :
  loop_body M h st = None ->
  unvisited st = [] \/ fst (scanUnvisited M h st) = None.
Proof.
  unfold loop_body. case_bool_decide as Hsize.
  - destruct (fst (scanUnvisited M h st)); [done|by right].
  - intros _. left. unfold Set_size in Hsize.
    destruct (unvisited st); [done|simpl in Hsize; lia].
Qed.

(** Invariants: a property kept by every iteration holds when the loop is
    left, and then no further iteration is possible. *)
Lemma while_loop_invariant (I : LoopState -> Prop) :
  (forall st st', I st -> loop_body M h st = Some st' -> I st') ->
  forall st, I st ->
    I (while_loop M h st) /\ loop_body M h (while_loop M h st) = None.
Proof.
  intros Hstep st. remember (length (unvisited st)) as k eqn:Hk.
  revert st Hk. induction k as [k IH] using lt_wf_ind. intros st -> HI.
  destruct (loop_body M h st) as [st'|] eqn:Hb.
  - rewrite (while_loop_continue _ _ Hb).
    apply (IH (length (unvisited st'))); [|done|by eapply Hstep].
    by apply loop_body_decreases with M h.
  - by rewrite (while_loop_exit _ Hb).
Qed.

(** Every counted iteration appends exactly one stop. *)
Lemma iterations_route st :
  length (route (while_loop M h st)) = length (route st) + iterations M h st.
Proof.
  remember (length (unvisited st)) as k eqn:Hk.
  revert st Hk. induction k as [k IH] using lt_wf_ind. intros st ->.
  destruct (loop_body M h st) as [st'|] eqn:Hb.
  - rewrite (while_loop_continue _ _ Hb), (iterations_continue _ _ Hb).
    rewrite (IH (length (unvisited st'))); [|by apply loop_body_decreases with M h|done].
    destruct (loop_body_step _ _ Hb) as (n & _ & _ & ->); simpl.
    rewrite length_app; simpl. lia.
  - rewrite (while_loop_exit _ Hb), (iterations_exit _ Hb). lia.
Qed.

Lemma bounded_step first k st st' :
  bounded first k st -> loop_body M h st = Some st' -> bounded first k st'.
Proof.
  intros [Hhd Hlen] Hb. pose proof (loop_body_decreases _ _ _ _ Hb) as Hlt.
  destruct (loop_body_step _ _ Hb) as (n & _ & _ & ->); simpl in *.
  split.
  - simpl. by destruct (route st).
  - simpl. rewrite length_app; simpl. lia.
Qed.

Lemma partitions_step selected st st' :
  NoDup selected ->
  partitions selected st -> loop_body M h st = Some st' -> partitions selected st'.
Proof.
  intros Hnd [Hperm Hcur] Hb.
  destruct (loop_body_step _ _ Hb) as (n & _ & Hn & ->); simpl.
  split.
  - simpl. rewrite <- (assoc_L (++)); simpl. rewrite <- Hperm.
    apply Permutation_app_head. symmetry. apply Set_delete_Permutation; [|done].
    rewrite <- Hperm in Hnd. by apply NoDup_app in Hnd as (_ & _ & ?).
  - simpl. apply elem_of_app. right. by apply list_elem_of_singleton.
Qed.

Lemma partitions_exit selected st :
  NoDup selected -> finite_distances M h selected ->
  partitions selected st -> loop_body M h st = None -> unvisited st = [].
Proof.
  intros Hnd Hfin [Hperm Hcur] [Hempty|Hscan]%loop_body_leave; [done|].
  destruct (unvisited st) as [|c l] eqn:Hu; [done|exfalso].
  pose proof (scan_spec M h (getCoords h (current st)) (unvisited st)) as Hs.
  unfold scanUnvisited, Set_forEach in Hscan. unfold scanned in Hs.
  rewrite Hscan in Hs. destruct Hs as [_ Hs].
  specialize (Hs c). rewrite Hu in Hs. specialize (Hs (list_elem_of_here _ _)).
  rewrite <- Hperm in Hnd.
  assert (Hd : (distanceBetween M h (current st) c <? infinity)%float = true).
  { apply Hfin.
    - rewrite <- Hperm. apply elem_of_app. by left.
    - rewrite <- Hperm. apply elem_of_app. right. by left.
    - intros <-. apply NoDup_app in Hnd as (_ & Hdisj & _).
      apply (Hdisj _ Hcur). by left. }
  unfold distanceBetween in Hd. unfold candidateDist in Hs. congruence.
Qed.

End Loop.

(** * Symmetry of the distance helper *)

Section Symmetry.

Context (M : MathObject).
Hypothesis sin_odd : forall x, Math_sin M (- x) = (- Math_sin M x)%float.

Lemma halfSin_opp d : halfSin M (- d) = (- halfSin M d)%float.
Proof.
  unfold halfSin, deg2rad.
  by rewrite JSNumber.mul_opp_l, JSNumber.div_opp_l, sin_odd.
Qed.

Lemma halfSin_square_swap k x y :
  (k * halfSin M (y - x) * halfSin M (y - x) = k * halfSin M (x - y) * halfSin M (x - y))%float.
Proof.
  destruct (JSNumber.sub_swap x y) as [-> | ->]; [|done].
  rewrite halfSin_opp.
  by rewrite !JSNumber.mul_opp_r, JSNumber.mul_opp_l, JSNumber.opp_involutive.
Qed.

Lemma halfSin_square_swap' x y :
  (halfSin M (y - x) * halfSin M (y - x) = halfSin M (x - y) * halfSin M (x - y))%float.
Proof.
  destruct (JSNumber.sub_swap x y) as [-> | ->]; [|done].
  rewrite halfSin_opp.
  by rewrite JSNumber.mul_opp_r, JSNumber.mul_opp_l, JSNumber.opp_involutive.
Qed.

Lemma getDistance_swap lat1 lon1 lat2 lon2 :
  getDistanceFromLatLonInKm M lat1 lon1 lat2 lon2 =
  getDistanceFromLatLonInKm M lat2 lon2 lat1 lon1.
Proof.
  unfold getDistanceFromLatLonInKm. cbv zeta. fold (halfSin M (lat2 - lat1)).
  fold (halfSin M (lon2 - lon1)). fold (halfSin M (lat1 - lat2)). fold (halfSin M (lon1 - lon2)).
  rewrite (halfSin_square_swap' lat1 lat2).
  rewrite (halfSin_square_swap _ lon1 lon2).
  by rewrite (JSNumber.mul_comm (Math_cos M (deg2rad lat1))).
Qed.

End Symmetry.

(** * The greedy step *)

Section Step.

Context (M : MathObject) (h : Heap).

(** The scan seen from the loop: distances are taken from the current stop. *)
Lemma scan_from_current st :
  scanned M h (getCoords h (current st)) (unvisited st) (scanUnvisited M h st).
Proof. apply scan_spec. Qed.

Lemma candidateDist_current st c :
  candidateDist M h (getCoords h (current st)) c = distanceBetween M h (current st) c.
Proof. done. Qed.

(** C2. Every iteration that appends a stop appends an unvisited candidate
    to which no unvisited candidate is strictly closer, and which is at most
    as far from the current stop as every candidate whose distance is a
    number; that stop leaves the unvisited set and becomes the current stop. *)
Theorem greedy_step_nearest (st st' : LoopState) :
  loop_body M h st = Some st' ->
  let nearest := current st' in
  nearest ∈ unvisited st /\
  (forall c, c ∈ unvisited st ->
     (distanceBetween M h (current st) c
        <? distanceBetween M h (current st) nearest)%float = false) /\
  (forall c, c ∈ unvisited st ->
     (distanceBetween M h (current st) c
        =? distanceBetween M h (current st) c)%float = true ->
     (distanceBetween M h (current st) nearest
        <=? distanceBetween M h (current st) c)%float = true) /\
  route st' = route st ++ [nearest] /\
  unvisited st' = Set_delete nearest (unvisited st) /\
  nearest ∉ unvisited st'.
Proof.
  intros Hb. destruct (loop_body_step _ _ _ _ Hb) as (n & Hscan & Hn & ->); simpl.
  pose proof (scan_from_current st) as Hs. unfold scanned in Hs.
  rewrite Hscan in Hs. destruct Hs as (_ & Hfin & l1 & l2 & Hl & H1 & H2).
  rewrite !candidateDist_current in *.
  assert (Hmin : forall c, c ∈ unvisited st ->
    (distanceBetween M h (current st) c <? distanceBetween M h (current st) n)%float = false).
  { intros c. rewrite Hl. intros [Hc|[->|Hc]%elem_of_cons]%elem_of_app.
    - by apply H1.
    - destruct (distanceBetween M h (current st) n
                  <? distanceBetween M h (current st) n)%float eqn:E; [|done].
      pose proof (JSNumber.ltb_asym _ _ E). congruence.
    - by apply H2. }
  split_and!; [done|done| |done|done|].
  - intros c Hc Hnum. apply JSNumber.not_ltb_leb; [done| |by apply Hmin].
    by apply JSNumber.ltb_is_number with infinity.
  - rewrite Set_delete_elem. tauto.
Qed.

(** C5. The stop selected by an iteration is the first member, in iteration
    order, among the candidates equidistant with it; the callback leaves
    [nearest] and [minDist] alone on a candidate as far as [minDist]. *)
Theorem greedy_step_tie_break (st st' : LoopState) :
  loop_body M h st = Some st' ->
  (exists j, unvisited st !! j = Some (current st') /\
     forall i c, unvisited st !! i = Some c ->
       (distanceBetween M h (current st) c
          =? distanceBetween M h (current st) (current st'))%float = true ->
       j <= i) /\
  (forall acc c,
     (distanceBetween M h (current st) c =? snd acc)%float = true ->
     visitCandidate M h (getCoords h (current st)) acc c = acc).
Proof.
  intros Hb. destruct (loop_body_step _ _ _ _ Hb) as (n & Hscan & Hn & ->); simpl.
  pose proof (scan_from_current st) as Hs. unfold scanned in Hs.
  rewrite Hscan in Hs. destruct Hs as (_ & Hfin & l1 & l2 & Hl & H1 & H2).
  split.
  - exists (length l1). rewrite Hl. split.
    + by rewrite list_lookup_middle.
    + intros i c Hi Heq. destruct (decide (length l1 <= i)) as [|Hlt]; [done|].
      rewrite lookup_app_l in Hi by lia.
      apply list_elem_of_lookup_2 in Hi. destruct (H1 c Hi) as [_ Hne].
      unfold candidateDist in Hne. unfold distanceBetween in Heq. congruence.
  - intros acc c Heq. unfold visitCandidate.
    change (getDistanceFromLatLonInKm M _ _ _ _) with (distanceBetween M h (current st) c).
    by rewrite (JSNumber.eqb_not_ltb _ _ Heq).
Qed.

End Step.

(** * The handler *)

Section Handler.

Context (M : MathObject).

(** The handler on a selection of at least two reports. *)
Lemma handleOptimizeRoute_run s first rest :
  selectedReports s = first :: rest -> 2 <= length (selectedReports s) ->
  handleOptimizeRoute M s =
    setShowRouteModal true
      (setOptimizedRoute (route (while_loop M (heap s) (loop_entry first rest))) s).
Proof.
  intros Hsel Hlen. unfold handleOptimizeRoute.
  rewrite bool_decide_eq_false_2 by lia. by rewrite Hsel.
Qed.

Lemma loop_entry_bounded first rest :
  bounded first (length (first :: rest)) (loop_entry first rest).
Proof.
  split; [done|]. simpl. pose proof (Set_new_length rest). lia.
Qed.

Lemma loop_entry_partitions first rest :
  NoDup (first :: rest) -> partitions (first :: rest) (loop_entry first rest).
Proof.
  intros Hnd. split; simpl.
  - rewrite Set_new_fresh; [done|]. by apply NoDup_cons in Hnd as [_ ?].
  - by left.
Qed.

(** The loop on distinct reports with finite distances visits them all. *)
Lemma while_loop_complete h first rest :
  NoDup (first :: rest) -> finite_distances M h (first :: rest) ->
  route (while_loop M h (loop_entry first rest)) ≡ₚ first :: rest /\
  unvisited (while_loop M h (loop_entry first rest)) = [].
Proof.
  intros Hnd Hfin.
  destruct (while_loop_invariant M h (partitions (first :: rest))
              (fun st st' => partitions_step M h _ st st' Hnd)
              (loop_entry first rest) (loop_entry_partitions _ _ Hnd)) as [Hpart Hexit].
  pose proof (partitions_exit M h _ _ Hnd Hfin Hpart Hexit) as Hempty.
  split; [|done]. destruct Hpart as [Hperm _].
  by rewrite Hempty, app_nil_r in Hperm.
Qed.

(** The loop on any selection starts the route with the first report and
    never makes it longer than the selection. *)
Lemma while_loop_bounded h first rest :
  head (route (while_loop M h (loop_entry first rest))) = Some first /\
  length (route (while_loop M h (loop_entry first rest))) <= length (first :: rest).
Proof.
  destruct (while_loop_invariant M h (bounded first (length (first :: rest)))
              (bounded_step M h first _)
              (loop_entry first rest) (loop_entry_bounded _ _)) as [[Hhd Hlen] _].
  split; [done|lia].
Qed.


(** C4 (amended). On a selection of at least two reports the stored route
    starts with the first selected report and is never longer than the
    selection; it has the length of the selection when the selected reports
    are distinct objects with distances below Infinity. *)
Theorem handleOptimizeRoute_start (s : ReportListState) :
  2 <= length (selectedReports s) ->
  let route := optimizedRoute (handleOptimizeRoute M s) in
  head route = head (selectedReports s) /\
  length route <= length (selectedReports s) /\
  (NoDup (selectedReports s) ->
   finite_distances M (heap s) (selectedReports s) ->
   length route = length (selectedReports s)).
Proof.
  intros Hlen. destruct (selectedReports s) as [|first rest] eqn:Hsel.
  { simpl in Hlen. lia. }
  rewrite <- Hsel in Hlen. rewrite (handleOptimizeRoute_run s first rest Hsel Hlen).
  simpl. destruct (while_loop_bounded (heap s) first rest) as [Hhd Hle].
  split_and!; [done|done|].
  intros Hnd Hfin.
  destruct (while_loop_complete (heap s) first rest Hnd Hfin) as [Hperm _].
  by rewrite Hperm.
Qed.

(** C6 (amended). The loop always terminates, after at most
    |selection| - 1 nearest-neighbour steps, and each step removes exactly
    one member from the unvisited set; on distinct reports with distances
    below Infinity it performs exactly |selection| - 1 steps and leaves the
    unvisited set empty. *)
Theorem handleOptimizeRoute_steps (s : ReportListState) first rest :
  selectedReports s = first :: rest ->
  2 <= length (selectedReports s) ->
  let entry := loop_entry first rest in
  optimizedRoute (handleOptimizeRoute M s) = route (while_loop M (heap s) entry) /\
  iterations M (heap s) entry <= length (selectedReports s) - 1 /\
  (forall st st', NoDup (unvisited st) -> loop_body M (heap s) st = Some st' ->
     length (unvisited st) = S (length (unvisited st'))) /\
  (NoDup (selectedReports s) ->
   finite_distances M (heap s) (selectedReports s) ->
   iterations M (heap s) entry = length (selectedReports s) - 1 /\
   unvisited (while_loop M (heap s) entry) = []).
Proof.
  intros Hsel Hlen entry.
  pose proof (iterations_route M (heap s) entry) as Hit. simpl in Hit.
  destruct (while_loop_bounded (heap s) first rest) as [_ Hle]. fold entry in Hle.
  split_and!.
  - by rewrite (handleOptimizeRoute_run s first rest Hsel Hlen).
  - rewrite Hsel. simpl in *. lia.
  - intros st st' Hnd Hb.
    destruct (loop_body_step _ _ _ _ Hb) as (n & _ & Hn & ->); simpl.
    by rewrite (Set_delete_Permutation n (unvisited st) Hnd Hn) at 1.
  - rewrite Hsel. intros Hnd Hfin.
    destruct (while_loop_complete (heap s) first rest Hnd Hfin) as [Hperm Hempty].
    fold entry in Hperm, Hempty. split; [|done].
    rewrite Hperm in Hit. simpl in *. lia.
Qed.

(** C7. With fewer than two selected reports the handler returns at once:
    the whole state, stored route and modal flag included, is unchanged. *)
Theorem handleOptimizeRoute_small (s : ReportListState) :
  length (selectedReports s) < 2 -> handleOptimizeRoute M s = s.
Proof.
  intros Hlen. unfold handleOptimizeRoute. by rewrite bool_decide_eq_true_2.
Qed.

(** C10. The handler leaves the report objects, the reports array and the
    selection untouched; it writes the route and the modal flag only. *)
Theorem handleOptimizeRoute_frame (s : ReportListState) :
  heap (handleOptimizeRoute M s) = heap s /\
  reports (handleOptimizeRoute M s) = reports s /\
  selectedReportIds (handleOptimizeRoute M s) = selectedReportIds s /\
  exists route shown,
    handleOptimizeRoute M s = setShowRouteModal shown (setOptimizedRoute route s).
Proof.
  assert (Hsame : s = setShowRouteModal (showRouteModal s)
                        (setOptimizedRoute (optimizedRoute s) s)) by by destruct s.
  unfold handleOptimizeRoute. case_bool_decide.
  { split_and!; [done..|]. by exists (optimizedRoute s), (showRouteModal s). }
  destruct (selectedReports s) as [|first rest].
  { split_and!; [done..|]. by exists (optimizedRoute s), (showRouteModal s). }
  split_and!; [done..|]. by eexists _, _.
Qed.

End Handler.

(** * Coordinate resolution, legs and symmetry *)

(** The branches of [getCoords] in their order: the precise coordinate of
    the report when there is one, else the entry of the city table for
    [centerCity] when there is one, else undefined fields (read as NaN) when
    [centerCity] names a member inherited from [Object.prototype], else
    (0, 0). *)
Lemma getCoords_priority (h : Heap) (r : ReportRef) :
  (forall c, coordinates (h r) = Some c ->
     getCoords h r = {| lat := latitude c; lng := longitude c |}) /\
  (forall cityCoords, coordinates (h r) = None ->
     CITY_COORDINATES !! centerCity (h r) = Some cityCoords ->
     getCoords h r = cityCoords) /\
  (coordinates (h r) = None ->
     centerCity (h r) ∈ Object_prototype_members ->
     getCoords h r = {| lat := nan; lng := nan |}) /\
  (coordinates (h r) = None ->
     CITY_COORDINATES !! centerCity (h r) = None ->
     centerCity (h r) ∉ Object_prototype_members ->
     getCoords h r = {| lat := 0; lng := 0 |}).
Proof.
  unfold getCoords. split_and!.
  - by intros c ->.
  - intros [] -> ->. done.
  - intros -> Hin.
    assert (Hnone : CITY_COORDINATES !! centerCity (h r) = None).
    { unfold Object_prototype_members in Hin.
      repeat (apply elem_of_cons in Hin as [->|Hin]; [vm_compute; reflexivity|]).
      by apply elem_of_nil in Hin. }
    rewrite Hnone. by rewrite decide_True.
  - intros -> -> Hnin. by rewrite decide_False.
Qed.

(** C3. The claim fails on the code for a report without coordinates whose
    [centerCity] is the name of a member that the table object inherits
    from [Object.prototype]: the lookup finds the member, which is truthy,
    and the helper returns undefined fields (read as NaN), not the sentinel
    (0, 0), although the name is no entry of the table. *)
Theorem getCoords_inherited_member :
  coordinates (DashboardSample.inherited_city 0) = None /\
  centerCity (DashboardSample.inherited_city 0) = "constructor" /\
  CITY_COORDINATES !! "constructor" = None /\
  getCoords DashboardSample.inherited_city 0 = {| lat := nan; lng := nan |} /\
  getCoords DashboardSample.inherited_city 0 <> {| lat := 0; lng := 0 |}.
Proof.
  split_and!; try (vm_compute; reflexivity).
  intros Heq. apply (f_equal (fun c => PrimFloat.eqb (lat c) (lat c))) in Heq.
  vm_compute in Heq. discriminate Heq.
Qed.

(** C9. The item of a stop with a successor carries the distance between
    the resolved coordinates of the stop and of its successor; the item of a
    stop without successor (the last one) carries no leg; the empty route and
    the one-stop route yield no leg. *)
Theorem routeItems_legs (M : MathObject) (h : Heap) (route : list ReportRef) :
  length (routeItems M h route) = length route /\
  (forall i a b, route !! i = Some a -> route !! (i + 1) = Some b ->
     routeItems M h route !! i =
       Some {| node := a; idx := i;
               distToNext := distanceBetween M h a b;
               leg := Some (distanceBetween M h a b) |}) /\
  (forall i a, route !! i = Some a -> route !! (i + 1) = None ->
     routeItems M h route !! i =
       Some {| node := a; idx := i; distToNext := 0; leg := None |}) /\
  routeItems M h [] = [] /\
  (forall a, routeItems M h [a] =
     [{| node := a; idx := 0; distToNext := 0; leg := None |}]).
Proof.
  unfold routeItems. split_and!.
  - apply length_imap.
  - intros i a b Ha Hb. rewrite list_lookup_imap, Ha. simpl.
    unfold routeItem. by rewrite Hb.
  - intros i a Ha Hb. rewrite list_lookup_imap, Ha. simpl.
    unfold routeItem. by rewrite Hb.
  - done.
  - done.
Qed.

(** C8. On an engine whose [Math.sin] is odd, the distance helper returns
    the very same number for (a, b) and for (b, a); two finite results
    therefore differ by 0, which is within the tolerance of 1e-6 km. *)
Theorem getDistanceFromLatLonInKm_symmetric (M : MathObject)
    (lat1 lon1 lat2 lon2 : float) :
  (forall x, Math_sin M (- x) = (- Math_sin M x)%float) ->
  let d12 := getDistanceFromLatLonInKm M lat1 lon1 lat2 lon2 in
  let d21 := getDistanceFromLatLonInKm M lat2 lon2 lat1 lon1 in
  d12 = d21 /\
  (is_finite d12 = true -> (abs (d12 - d21) <=? 1e-6)%float = true).
Proof.
  intros Hodd d12 d21.
  assert (Heq : d12 = d21) by by apply getDistance_swap.
  split; [done|]. intros Hfin. rewrite <- Heq.
  by rewrite (JSNumber.sub_diag _ Hfin).
Qed.

(** * The sample data, evaluated *)

Module SampleFacts.
Import Sample.

Lemma series_sin_odd x : series_sin (- x) = (- series_sin x)%float.
Proof.
  unfold series_sin. cbv zeta.
  rewrite JSNumber.mul_opp_l at 1. f_equal.
  by rewrite JSNumber.mul_opp_l, JSNumber.mul_opp_r, JSNumber.opp_involutive.
Qed.

Lemma series_propagates_NaN : propagates_NaN series_Math.
Proof.
  split; [done|]. intros x. simpl. unfold series_atan2.
  by rewrite JSNumber.ltb_nan_r, JSNumber.div_nan_l.
Qed.

Lemma three_cities_selected : selectedReports three_cities = [0; 1; 2].
Proof. by vm_compute. Qed.

Lemma with_NaN_selected : selectedReports with_NaN = [0; 5].
Proof. by vm_compute. Qed.

Lemma three_cities_finite :
  finite_distances series_Math objects [0; 1; 2].
Proof.
  intros a b Ha Hb _.
  repeat match goal with
  | H : _ ∈ _ :: _ |- _ => apply elem_of_cons in H as [->|H]
  | H : _ ∈ [] |- _ => by apply elem_of_nil in H
  end; by vm_compute.
Qed.

End SampleFacts.

(** A NaN coordinate makes the distance NaN on every engine that follows
    ECMA-262, and NaN is below nothing: such a candidate is never kept. *)
Lemma getDistance_NaN_latitude M lat1 lon1 lon2 :
  propagates_NaN M -> getDistanceFromLatLonInKm M lat1 lon1 nan lon2 = nan.
Proof.
  intros [Hsin Hatan]. unfold getDistanceFromLatLonInKm. cbv zeta.
  rewrite JSNumber.sub_nan_l.
  change (deg2rad nan / 2)%float with nan. rewrite Hsin.
  change (nan * nan)%float with nan. rewrite JSNumber.add_nan_l.
  change (Math_sqrt nan) with nan. by rewrite Hatan.
Qed.

Lemma loop_leaves_at_NaN M :
  propagates_NaN M -> loop_body M Sample.objects (loop_entry 0 [5]) = None.
Proof.
  intros HM. unfold loop_body, scanUnvisited, Set_forEach, loop_entry.
  cbn [unvisited current]. change (Set_new [5]) with [5].
  rewrite bool_decide_eq_true_2 by (unfold Set_size; simpl; lia).
  cbn [fold_left]. unfold visitCandidate.
  change (getCoords Sample.objects 5) with {| lat := nan; lng := 72.8777 |}.
  cbn [lat lng snd fst].
  by rewrite (getDistance_NaN_latitude M _ _ _ HM).
Qed.

Lemma route_stops_at_NaN M :
  propagates_NaN M ->
  optimizedRoute (handleOptimizeRoute M Sample.with_NaN) = [0].
Proof.
  intros HM.
  rewrite (handleOptimizeRoute_run M _ 0 [5] SampleFacts.with_NaN_selected)
    by (rewrite SampleFacts.with_NaN_selected; simpl; lia).
  cbn [optimizedRoute setShowRouteModal setOptimizedRoute].
  change (heap Sample.with_NaN) with Sample.objects.
  by rewrite (while_loop_exit _ _ _ (loop_leaves_at_NaN M HM)).
Qed.

(** * The theorems at the sample data *)

Lemma distinct_012 : NoDup [0; 1; 2].
Proof. apply (bool_decide_unpack _). vm_compute. exact I. Qed.

Lemma distinct_05 : NoDup [0; 5].
Proof. apply (bool_decide_unpack _). vm_compute. exact I. Qed.

(** Scenario 1: Mumbai, then Pune, then Delhi. *)
Example three_cities_route :
  optimizedRoute (handleOptimizeRoute Sample.series_Math Sample.three_cities) = [0; 2; 1].
Proof. vm_compute. reflexivity. Qed.

(** Scenario 2: the report resolved to (0, 0) is visited, once and last. *)
Example with_unregistered_route :
  optimizedRoute (handleOptimizeRoute Sample.series_Math Sample.with_unregistered)
    = [0; 2; 4].
Proof. vm_compute. reflexivity. Qed.



Lemma handleOptimizeRoute_start_witness :
  head (optimizedRoute (handleOptimizeRoute Sample.series_Math Sample.three_cities))
    = head (selectedReports Sample.three_cities) /\
  length (optimizedRoute (handleOptimizeRoute Sample.series_Math Sample.three_cities))
    = length (selectedReports Sample.three_cities).
Proof.
  assert (Hlen : 2 <= length (selectedReports Sample.three_cities))
    by (vm_compute; lia).
  destruct (handleOptimizeRoute_start Sample.series_Math Sample.three_cities Hlen)
    as (Hhd & _ & Hfull).
  split; [exact Hhd|]. apply Hfull.
  - rewrite SampleFacts.three_cities_selected. exact distinct_012.
  - rewrite SampleFacts.three_cities_selected. exact SampleFacts.three_cities_finite.
Defined.

(** The cardinality part of C4 fails on the same selection. *)
Lemma handleOptimizeRoute_start_fails_on_NaN :
  2 <= length (selectedReports Sample.with_NaN) /\
  length (optimizedRoute (handleOptimizeRoute Sample.series_Math Sample.with_NaN))
    <> length (selectedReports Sample.with_NaN).
Proof.
  rewrite (route_stops_at_NaN _ SampleFacts.series_propagates_NaN).
  rewrite SampleFacts.with_NaN_selected. simpl. lia.
Qed.

Lemma handleOptimizeRoute_steps_witness :
  iterations Sample.series_Math Sample.objects (loop_entry 0 [1; 2]) = 2 /\
  unvisited (while_loop Sample.series_Math Sample.objects (loop_entry 0 [1; 2])) = [].
Proof.
  assert (Hlen : 2 <= length (selectedReports Sample.three_cities))
    by (vm_compute; lia).
  destruct (handleOptimizeRoute_steps Sample.series_Math Sample.three_cities 0 [1; 2]
              SampleFacts.three_cities_selected Hlen) as (_ & _ & _ & Hfull).
  rewrite SampleFacts.three_cities_selected in Hfull.
  apply Hfull.
  - exact distinct_012.
  - exact SampleFacts.three_cities_finite.
Defined.

(** The claim of C6 fails on the same selection: of two selected reports
    the loop performs no step at all. *)
Lemma handleOptimizeRoute_steps_fails_on_NaN :
  selectedReports Sample.with_NaN = [0; 5] /\
  iterations Sample.series_Math (heap Sample.with_NaN) (loop_entry 0 [5])
    <> length (selectedReports Sample.with_NaN) - 1.
Proof.
  split; [exact SampleFacts.with_NaN_selected|].
  rewrite SampleFacts.with_NaN_selected.
  change (heap Sample.with_NaN) with Sample.objects.
  rewrite (iterations_exit _ _ _ (loop_leaves_at_NaN _ SampleFacts.series_propagates_NaN)).
  simpl. lia.
Qed.

Lemma handleOptimizeRoute_small_witness :
  handleOptimizeRoute Sample.series_Math Sample.single = Sample.single.
Proof.
  apply handleOptimizeRoute_small. vm_compute. lia.
Defined.

Lemma greedy_step_nearest_witness :
  loop_body Sample.series_Math Sample.objects (loop_entry 0 [1; 2])
    = Some {| route := [0; 2]; unvisited := [1]; current := 2 |} /\
  2 ∈ unvisited (loop_entry 0 [1; 2]) /\
  (forall c, c ∈ unvisited (loop_entry 0 [1; 2]) ->
     PrimFloat.ltb (distanceBetween Sample.series_Math Sample.objects 0 c)
       (distanceBetween Sample.series_Math Sample.objects 0 2) = false).
Proof.
  assert (Hb : loop_body Sample.series_Math Sample.objects (loop_entry 0 [1; 2])
               = Some {| route := [0; 2]; unvisited := [1]; current := 2 |})
    by (vm_compute; reflexivity).
  destruct (greedy_step_nearest Sample.series_Math Sample.objects _ _ Hb)
    as (Hin & Hmin & _).
  split_and!; [exact Hb|exact Hin|exact Hmin].
Defined.

(** Two reports from Pune are equidistant from Mumbai: the one inserted
    first is taken. *)
Lemma greedy_step_tie_break_witness :
  loop_body Sample.series_Math Sample.objects (loop_entry 0 [6; 1; 2])
    = Some {| route := [0; 6]; unvisited := [1; 2]; current := 6 |} /\
  PrimFloat.eqb (distanceBetween Sample.series_Math Sample.objects 0 2)
    (distanceBetween Sample.series_Math Sample.objects 0 6) = true /\
  exists j, unvisited (loop_entry 0 [6; 1; 2]) !! j = Some 6 /\ j <= 2.
Proof.
  assert (Hb : loop_body Sample.series_Math Sample.objects (loop_entry 0 [6; 1; 2])
               = Some {| route := [0; 6]; unvisited := [1; 2]; current := 6 |})
    by (vm_compute; reflexivity).
  assert (Heq : PrimFloat.eqb (distanceBetween Sample.series_Math Sample.objects 0 2)
    (distanceBetween Sample.series_Math Sample.objects 0 6) = true)
    by (vm_compute; reflexivity).
  destruct (greedy_step_tie_break Sample.series_Math Sample.objects _ _ Hb)
    as [(j & Hj & Hfirst) _].
  split_and!; [exact Hb|exact Heq|].
  exists j. split; [exact Hj|]. apply (Hfirst 2 2); [reflexivity|exact Heq].
Defined.

Lemma getCoords_priority_witness :
  getCoords Sample.objects 3 = {| lat := 12.9352; lng := 77.6245 |} /\
  getCoords Sample.objects 2 = {| lat := 18.5204; lng := 73.8567 |} /\
  getCoords Sample.objects 4 = {| lat := 0; lng := 0 |}.
Proof.
  split_and!.
  - apply (proj1 (getCoords_priority Sample.objects 3)
             {| latitude := 12.9352; longitude := 77.6245 |}).
    reflexivity.
  - apply (proj1 (proj2 (getCoords_priority Sample.objects 2))).
    + reflexivity.
    + vm_compute. reflexivity.
  - apply (proj2 (proj2 (proj2 (getCoords_priority Sample.objects 4)))).
    + reflexivity.
    + vm_compute. reflexivity.
    + apply (bool_decide_unpack _). vm_compute. exact I.
Defined.

Lemma routeItems_legs_witness :
  routeItems Sample.series_Math Sample.objects [0; 2; 1] !! 0 =
    Some {| node := 0; idx := 0;
            distToNext := distanceBetween Sample.series_Math Sample.objects 0 2;
            leg := Some (distanceBetween Sample.series_Math Sample.objects 0 2) |} /\
  routeItems Sample.series_Math Sample.objects [0; 2; 1] !! 2 =
    Some {| node := 1; idx := 2; distToNext := 0; leg := None |}.
Proof.
  destruct (routeItems_legs Sample.series_Math Sample.objects [0; 2; 1])
    as (_ & Hleg & Hlast & _).
  split.
  - apply Hleg; reflexivity.
  - apply Hlast; reflexivity.
Defined.

Lemma getDistanceFromLatLonInKm_symmetric_witness :
  getDistanceFromLatLonInKm Sample.series_Math 19.0760 72.8777 18.5204 73.8567 =
  getDistanceFromLatLonInKm Sample.series_Math 18.5204 73.8567 19.0760 72.8777 /\
  (abs (getDistanceFromLatLonInKm Sample.series_Math 19.0760 72.8777 18.5204 73.8567 -
        getDistanceFromLatLonInKm Sample.series_Math 18.5204 73.8567 19.0760 72.8777)
     <=? 1e-6)%float = true.
Proof.
  destruct (getDistanceFromLatLonInKm_symmetric Sample.series_Math
              19.0760 72.8777 18.5204 73.8567 SampleFacts.series_sin_odd)
    as [Heq Htol].
  split; [exact Heq|]. apply Htol. vm_compute. reflexivity.
Defined.

(** * Selection *)

Lemma toggle_twice_ids (i : string) (ids : gset string) :
  (let t := if decide (i ∈ ids) then ids ∖ {[i]} else ids ∪ {[i]} in
   if decide (i ∈ t) then t ∖ {[i]} else t ∪ {[i]}) = ids.
Proof.
  cbv zeta. destruct (decide (i ∈ ids)) as [Hin|Hnin].
  - rewrite decide_False by (set_unfold; tauto).
    apply set_eq. intros j. set_unfold. destruct (decide (j = i)) as [->|Hj]; tauto.
  - rewrite decide_True by (set_unfold; tauto).
    apply set_eq. intros j. set_unfold. intuition congruence.
Qed.

(** X1. Toggling the same report twice restores the state. *)
Theorem toggleSelection_twice (i : string) (s : ReportListState) :
  toggleSelection i (toggleSelection i s) = s.
Proof.
  unfold toggleSelection, setSelectedReportIds; simpl.
  pose proof (toggle_twice_ids i (selectedReportIds s)) as H. cbv zeta in H.
  rewrite H. by destruct s.
Qed.

Lemma toggle_elem (i k : string) (ids : gset string) :
  k ∈ (if decide (i ∈ ids) then ids ∖ {[i]} else ids ∪ {[i]}) <->
  (k = i /\ i ∉ ids) \/ (k ≠ i /\ k ∈ ids).
Proof.
  destruct (decide (i ∈ ids)) as [Hi|Hi]; set_unfold;
    destruct (decide (k = i)) as [->|Hk]; tauto.
Qed.

(** X2. A toggle flips the membership of its id and of no other id, changes
    the size of the selection by exactly one and touches nothing else. *)
Theorem toggleSelection_flips (i : string) (s : ReportListState) :
  let s' := toggleSelection i s in
  (forall j, j ∈ selectedReportIds s' <->
     if decide (j = i) then i ∉ selectedReportIds s else j ∈ selectedReportIds s) /\
  size (selectedReportIds s') =
    (if decide (i ∈ selectedReportIds s)
     then size (selectedReportIds s) - 1 else size (selectedReportIds s) + 1) /\
  heap s' = heap s /\ reports s' = reports s /\
  optimizedRoute s' = optimizedRoute s /\ showRouteModal s' = showRouteModal s.
Proof.
  unfold toggleSelection; simpl. split_and!; try done.
  - intros j. rewrite toggle_elem. destruct (decide (j = i)) as [->|Hj]; tauto.
  - destruct (decide (i ∈ selectedReportIds s)) as [Hin|Hnin].
    + rewrite size_difference by (by apply singleton_subseteq_l).
      by rewrite size_singleton.
    + rewrite size_union by (by apply disjoint_singleton_r).
      by rewrite size_singleton.
Qed.

(** X3. Toggles commute. *)
Theorem toggleSelection_commute (i j : string) (s : ReportListState) :
  toggleSelection i (toggleSelection j s) = toggleSelection j (toggleSelection i s).
Proof.
  destruct (decide (i = j)) as [->|Hne]; [done|].
  unfold toggleSelection, setSelectedReportIds; simpl. f_equal.
  apply set_eq. intros k. rewrite !toggle_elem.
  destruct (decide (k = i)), (decide (k = j)); subst; tauto.
Qed.

(** * Filters *)

Section Filters.

Context (f : ReportListFilters) (an : Analyses) (s : ReportListState).

Lemma visibleReports_elem r :
  r ∈ visibleReports f an s <-> isVisible f (heap s r) (an r) = true /\ r ∈ reports s.
Proof.
  unfold visibleReports. rewrite list_elem_of_filter.
  by rewrite Is_true_true.
Qed.

(** X4. A volunteer sees verified and collected reports only, whatever the
    filters are set to. *)
Theorem volunteer_sees_verified_or_collected r :
  props_userRole f = Volunteer ->
  r ∈ visibleReports f an s ->
  status (heap s r) = VERIFIED \/ status (heap s r) = COLLECTED.
Proof.
  intros Hrole [Hvis _]%visibleReports_elem. unfold isVisible in Hvis.
  rewrite !andb_true_iff in Hvis. destruct Hvis as [[[[Hv _] _] _] _].
  rewrite (bool_decide_eq_true_2 _ Hrole) in Hv. simpl in Hv.
  destruct (status (heap s r)); auto; done.
Qed.

(** X5. With every filter at ALL an admin or a citizen sees the reports it was
    given, all of them and in their order. *)
Theorem visibleReports_unfiltered :
  props_userRole f ≠ Volunteer ->
  filterStatus f = "ALL" -> filterCity f = "ALL" ->
  filterSeverity f = "ALL" -> filterWasteType f = "ALL" ->
  visibleReports f an s = reports s.
Proof.
  intros Hrole Hst Hcity Hsev Hwt. unfold visibleReports.
  induction (reports s) as [|r l IH]; [done|].
  rewrite filter_cons, IH, decide_True; [done|].
  apply Is_true_true. unfold isVisible.
  rewrite (bool_decide_eq_false_2 _ Hrole), Hst, Hcity, Hsev, Hwt. done.
Qed.

(** X6. A report without analysis, or whose analysis has an empty waste type,
    passes no severity filter (when the analysis is absent) and no waste-type
    filter other than Unspecified; under another waste-type filter every
    visible report carries exactly that waste type. *)
Theorem visibleReports_analysis_filters r :
  r ∈ visibleReports f an s ->
  (an r = None -> filterSeverity f = "ALL") /\
  (filterWasteType f ≠ "ALL" -> filterWasteType f ≠ "Unspecified" ->
     exists x, an r = Some x /\ wasteType x = filterWasteType f) /\
  (filterWasteType f ≠ "ALL" -> wasteTypeOrUnspecified (an r) = filterWasteType f).
Proof.
  intros [Hvis _]%visibleReports_elem. unfold isVisible in Hvis.
  rewrite !andb_true_iff in Hvis. destruct Hvis as [[[[_ _] _] Hsev] Hwt].
  assert (Hw : filterWasteType f ≠ "ALL" ->
               wasteTypeOrUnspecified (an r) = filterWasteType f).
  { intros Hne. rewrite (bool_decide_eq_true_2 _ Hne) in Hwt. simpl in Hwt.
    apply negb_true_iff, bool_decide_eq_false in Hwt.
    by destruct (decide (wasteTypeOrUnspecified (an r) = filterWasteType f)). }
  split_and!; [|intros Hne Hun; specialize (Hw Hne)|done].
  - intros Hnone. rewrite Hnone in Hsev.
    destruct (decide (filterSeverity f = "ALL")) as [|Hne]; [done|].
    by rewrite (bool_decide_eq_true_2 _ Hne) in Hsev.
  - unfold wasteTypeOrUnspecified in Hw. destruct (an r) as [x|]; [|congruence].
    destruct (decide (wasteType x = "")); [congruence|eauto].
Qed.

End Filters.

(** * The waste types offered by the filter *)

Lemma StringSet_add_elem x y l : y ∈ StringSet_add x l <-> y = x \/ y ∈ l.
Proof.
  unfold StringSet_add. destruct (decide (x ∈ l)).
  - split; [by right|]. by intros [->|].
  - rewrite elem_of_app, list_elem_of_singleton. tauto.
Qed.

Lemma StringSet_add_NoDup x l : NoDup l -> NoDup (StringSet_add x l).
Proof.
  unfold StringSet_add. intros Hl. destruct (decide (x ∈ l)); [done|].
  apply NoDup_app. split_and!; [done| |apply NoDup_singleton].
  by intros y Hy ->%list_elem_of_singleton.
Qed.

Lemma collectWasteTypes_fold (an : Analyses) l types :
  NoDup types ->
  NoDup (fold_left (collectWasteTypes an) l types) /\
  forall t, t ∈ fold_left (collectWasteTypes an) l types <->
    t ∈ types \/
    (t ≠ "" /\ exists r x, r ∈ l /\ an r = Some x /\ wasteType x = t).
Proof.
  revert types. induction l as [|r l IH]; intros types Hnd; simpl.
  - split; [done|]. intros t. split; [by left|].
    intros [?|(_ & r & x & []%elem_of_nil & _)]; done.
  - assert (Hnd' : NoDup (collectWasteTypes an types r)).
    { unfold collectWasteTypes. destruct (an r) as [x|]; [|done].
      destruct (decide (wasteType x = "")); [done|by apply StringSet_add_NoDup]. }
    destruct (IH _ Hnd') as [Hres Hel]. split; [done|].
    intros t. rewrite Hel. unfold collectWasteTypes.
    split.
    + intros [Ht|(Hne & r' & x & Hr' & Hx & Hw)].
      * destruct (an r) as [x|] eqn:Hx; [|by left].
        destruct (decide (wasteType x = "")) as [|Hne]; [by left|].
        apply StringSet_add_elem in Ht as [->|Ht]; [|by left].
        right. split; [done|]. exists r, x. split_and!; [by left|done..].
      * right. split; [done|]. exists r', x. split_and!; [by right|done..].
    + intros [Ht|(Hne & r' & x & [->|Hr']%elem_of_cons & Hx & Hw)].
      * left. destruct (an r) as [x|]; [|done].
        destruct (decide (wasteType x = "")); [done|].
        apply StringSet_add_elem. by right.
      * left. rewrite Hx. rewrite decide_False by congruence.
        apply StringSet_add_elem. by left.
      * right. split; [done|]. by exists r', x.
Qed.

Lemma codeUnits_leb_total x y : codeUnits_leb x y = true \/ codeUnits_leb y x = true.
Proof.
  revert y. induction x as [|a x IH]; intros [|b y]; simpl; auto.
  destruct (N.ltb_spec a b), (N.ltb_spec b a); auto; lia.
Qed.

Lemma codeUnits_leb_trans x y z :
  codeUnits_leb x y = true -> codeUnits_leb y z = true -> codeUnits_leb x z = true.
Proof.
  revert y z. induction x as [|a x IH]; intros [|b y] [|c z]; simpl; try done.
  destruct (N.ltb_spec a b), (N.ltb_spec b a), (N.ltb_spec b c), (N.ltb_spec c b),
    (N.ltb_spec a c), (N.ltb_spec c a); try done; try lia.
  apply IH.
Qed.

#[global] Instance sortCompare_le_total : Total sortCompare_le.
Proof. intros x y. apply codeUnits_leb_total. Qed.

#[global] Instance sortCompare_le_trans : Transitive sortCompare_le.
Proof. intros x y z. apply codeUnits_leb_trans. Qed.

(** The order is that of the code units, not of the UTF-8 bytes: U+1F600
    (a surrogate pair) comes before U+FF5E. *)
Example sort_by_code_units :
  merge_sort sortCompare_le ["～"; "😀"; "é"; "z"; "plastic"; "Plastic"]
    = ["Plastic"; "plastic"; "z"; "é"; "😀"; "～"].
Proof. vm_compute. reflexivity. Qed.

(** X7. The waste types offered by the filter are sorted by UTF-16 code
    units, pairwise distinct and never empty; they are exactly the non-empty
    waste types found in the analyses of the reports. *)
Theorem uniqueWasteTypes_spec (an : Analyses) (s : ReportListState) :
  StronglySorted sortCompare_le (uniqueWasteTypes an s) /\
  NoDup (uniqueWasteTypes an s) /\
  forall t, t ∈ uniqueWasteTypes an s <->
    t ≠ "" /\ exists r x, r ∈ reports s /\ an r = Some x /\ wasteType x = t.
Proof.
  unfold uniqueWasteTypes.
  destruct (collectWasteTypes_fold an (reports s) [] (NoDup_nil_2)) as [Hnd Hel].
  split_and!.
  - apply StronglySorted_merge_sort; apply _.
  - by rewrite merge_sort_Permutation.
  - intros t. rewrite merge_sort_Permutation, Hel, elem_of_nil. tauto.
Qed.

(** * Select all *)

Lemma filter_agree {A} (P Q : A -> Prop) `{!forall x, Decision (P x)}
    `{!forall x, Decision (Q x)} (l : list A) :
  (forall x, x ∈ l -> P x <-> Q x) -> filter P l = filter Q l.
Proof.
  induction l as [|x l IH]; intros Hag; [done|].
  rewrite !filter_cons. rewrite IH by (intros y Hy; apply Hag; by right).
  destruct (decide (P x)) as [HP|HP], (decide (Q x)) as [HQ|HQ]; try done.
  - destruct HQ. apply Hag; [by left|done].
  - destruct HP. apply Hag; [by left|done].
Qed.

Lemma filter_all {A} (P : A -> Prop) `{!forall x, Decision (P x)} (l : list A) :
  (forall x, x ∈ l -> P x) -> filter P l = l.
Proof.
  induction l as [|x l IH]; intros Hall; [done|].
  rewrite filter_cons, decide_True by (apply Hall; by left).
  rewrite IH; [done|]. intros y Hy. apply Hall. by right.
Qed.

Lemma NoDup_fmap_agree {A B} (g : A -> B) (l : list A) x y :
  NoDup (map g l) -> x ∈ l -> y ∈ l -> g x = g y -> x = y.
Proof.
  induction l as [|z l IH]; simpl; [by intros _ ?%elem_of_nil|].
  intros [Hz Hl]%NoDup_cons [->|Hx]%elem_of_cons [->|Hy]%elem_of_cons Hg; auto.
  - destruct Hz. rewrite Hg. apply list_elem_of_fmap. by exists y.
  - destruct Hz. rewrite <- Hg. apply list_elem_of_fmap. by exists x.
Qed.

Section SelectAll.

Context (f : ReportListFilters) (an : Analyses) (s : ReportListState).

Lemma toggleSelectAll_ids :
  size (selectedReportIds s) ≠ length (visibleReports f an s) ->
  selectedReportIds (toggleSelectAll f an s) =
    list_to_set (reportIds s (filter (fun r => status (heap s r) = VERIFIED)
                                (visibleReports f an s))).
Proof. intros Hsize. unfold toggleSelectAll. by rewrite decide_False. Qed.

(** X8. When it selects, Select All selects the ids of the visible verified
    reports and nothing else. *)
Theorem toggleSelectAll_selects j :
  size (selectedReportIds s) ≠ length (visibleReports f an s) ->
  j ∈ selectedReportIds (toggleSelectAll f an s) <->
  exists r, r ∈ visibleReports f an s /\
            status (heap s r) = VERIFIED /\ id (heap s r) = j.
Proof.
  intros Hsize. rewrite (toggleSelectAll_ids Hsize).
  rewrite elem_of_list_to_set. unfold reportIds. rewrite list_elem_of_fmap.
  split.
  - intros (r & -> & [Hv Hr]%list_elem_of_filter). eauto.
  - intros (r & Hr & Hv & <-). exists r. split; [done|].
    by apply list_elem_of_filter.
Qed.

(** X9. When the ids of the reports are distinct, the reports selected by
    Select All are exactly the visible verified reports, in the order of the
    list: these are the reports the next route is built from. *)
Theorem toggleSelectAll_selectedReports :
  NoDup (reportIds s (reports s)) ->
  size (selectedReportIds s) ≠ length (visibleReports f an s) ->
  selectedReports (toggleSelectAll f an s) =
    filter (fun r => status (heap s r) = VERIFIED) (visibleReports f an s).
Proof.
  intros Hids Hsize.
  unfold selectedReports.
  assert (Hheap : heap (toggleSelectAll f an s) = heap s)
    by (unfold toggleSelectAll; by case_decide).
  assert (Hrep : reports (toggleSelectAll f an s) = reports s)
    by (unfold toggleSelectAll; by case_decide).
  rewrite Hheap, Hrep. unfold visibleReports. rewrite list_filter_filter.
  apply filter_agree. intros r Hr. rewrite (toggleSelectAll_ids Hsize).
  rewrite elem_of_list_to_set. unfold reportIds. rewrite list_elem_of_fmap. split.
  - intros (r' & Hid & [Hv [Hvis Hr']%visibleReports_elem]%list_elem_of_filter).
    assert (r' = r) as <-; [|by rewrite Hvis].
    by apply (NoDup_fmap_agree (fun r => id (heap s r)) (reports s)).
  - intros [Hv Hvis%Is_true_true]. exists r. split; [done|].
    apply list_elem_of_filter. split; [done|]. by apply visibleReports_elem.
Qed.

Lemma visible_VERIFIED r :
  filterStatus f = "VERIFIED" -> r ∈ visibleReports f an s ->
  status (heap s r) = VERIFIED.
Proof.
  intros Hf [Hvis _]%visibleReports_elem.
  unfold isVisible in Hvis. rewrite !andb_true_iff in Hvis.
  destruct Hvis as [[[[_ Hst] _] _] _]. rewrite Hf in Hst.
  by destruct (status (heap s r)).
Qed.

(** X10. In the view that shows the button (the To Be Cleaned filter), with
    distinct ids among the visible reports, pressing Select All a second
    time clears the selection. *)
Theorem toggleSelectAll_twice_clears :
  filterStatus f = "VERIFIED" ->
  NoDup (reportIds s (visibleReports f an s)) ->
  size (selectedReportIds s) ≠ length (visibleReports f an s) ->
  selectedReportIds (toggleSelectAll f an (toggleSelectAll f an s)) = ∅.
Proof.
  intros Hf Hids Hsize.
  assert (Hall : filter (fun r => status (heap s r) = VERIFIED) (visibleReports f an s)
                 = visibleReports f an s).
  { apply filter_all. intros r. by apply visible_VERIFIED. }
  unfold toggleSelectAll at 1.
  assert (Hvis : visibleReports f an (toggleSelectAll f an s) = visibleReports f an s)
    by (unfold toggleSelectAll; by case_decide).
  rewrite Hvis. rewrite decide_True; [done|].
  unfold toggleSelectAll. rewrite decide_False by done. simpl.
  rewrite Hall. fold (reportIds s (visibleReports f an s)).
  rewrite size_list_to_set by done. unfold reportIds. by rewrite length_map.
Qed.

End SelectAll.

(** * The button and the handler *)

Lemma selectedReports_length (s : ReportListState) :
  NoDup (reportIds s (reports s)) ->
  (forall j, j ∈ selectedReportIds s -> j ∈ reportIds s (reports s)) ->
  length (selectedReports s) = size (selectedReportIds s).
Proof.
  intros Hnd Hsub.
  set (ids := reportIds s (selectedReports s)).
  assert (Hids : NoDup ids).
  { apply (sublist_NoDup _ (reportIds s (reports s))); [done|].
    unfold ids, reportIds, selectedReports.
    apply (fmap_sublist (fun r => id (heap s r))), sublist_filter. }
  assert (Hset : list_to_set ids = selectedReportIds s).
  { apply set_eq. intros j. rewrite elem_of_list_to_set.
    unfold ids, reportIds, selectedReports. rewrite list_elem_of_fmap. split.
    - by intros (r & -> & [Hin _]%list_elem_of_filter).
    - intros Hj. pose proof (Hsub j Hj) as Hin.
      apply list_elem_of_fmap in Hin as (r & Heq & Hr).
      exists r. split; [done|]. apply list_elem_of_filter. by rewrite <- Heq. }
  rewrite <- Hset, size_list_to_set by done.
  unfold ids, reportIds. by rewrite length_map.
Qed.

(** X11. When the ids of the reports are distinct and every selected id is the
    id of a report, the handler works on as many reports as ids are
    selected; so whenever the Generate Route button is shown, pressing it
    opens the route modal with a route that starts at the first selected
    report. *)
Theorem routeButton_opens_modal (M : MathObject) (f : ReportListFilters)
    (s : ReportListState) :
  NoDup (reportIds s (reports s)) ->
  (forall j, j ∈ selectedReportIds s -> j ∈ reportIds s (reports s)) ->
  length (selectedReports s) = size (selectedReportIds s) /\
  (routeButtonShown f s = true ->
   showRouteModal (handleOptimizeRoute M s) = true /\
   head (optimizedRoute (handleOptimizeRoute M s)) = head (selectedReports s)).
Proof.
  intros Hnd Hsub. pose proof (selectedReports_length s Hnd Hsub) as Hlen.
  split; [done|]. unfold routeButtonShown.
  intros [_ Hsize%bool_decide_eq_true]%andb_true_iff.
  rewrite <- Hlen in Hsize.
  destruct (selectedReports s) as [|first rest] eqn:Hsel; [simpl in Hsize; lia|].
  rewrite <- Hsel in Hsize.
  rewrite (handleOptimizeRoute_run M s first rest Hsel Hsize).
  split; [done|]. cbn [optimizedRoute setShowRouteModal setOptimizedRoute].
  by destruct (while_loop_bounded M (heap s) first rest) as [-> _].
Qed.

(** * The route for any selection *)

(** X12. Whatever the distances are (NaN included), the route never repeats a
    stop and never contains a report that was not selected, as long as the
    selected reports are distinct objects. *)
Theorem route_without_repetition (M : MathObject) (s : ReportListState) :
  2 <= length (selectedReports s) ->
  NoDup (selectedReports s) ->
  NoDup (optimizedRoute (handleOptimizeRoute M s)) /\
  optimizedRoute (handleOptimizeRoute M s) ⊆+ selectedReports s.
Proof.
  intros Hlen Hnd. destruct (selectedReports s) as [|first rest] eqn:Hsel.
  { simpl in Hlen. lia. }
  rewrite <- Hsel in Hlen. rewrite (handleOptimizeRoute_run M s first rest Hsel Hlen).
  cbn [optimizedRoute setShowRouteModal setOptimizedRoute].
  destruct (while_loop_invariant M (heap s) (partitions (first :: rest))
              (fun st st' => partitions_step M (heap s) _ st st' Hnd)
              (loop_entry first rest) (loop_entry_partitions _ _ Hnd)) as [[Hperm _] _].
  split.
  - rewrite <- Hperm in Hnd. by apply NoDup_app in Hnd as [? _].
  - rewrite <- Hperm. by apply submseteq_inserts_r.
Qed.

(** X13. Pressing Generate Route again, with nothing changed in between, stores
    the same route: the handler is idempotent. *)
Theorem handleOptimizeRoute_idempotent (M : MathObject) (s : ReportListState) :
  handleOptimizeRoute M (handleOptimizeRoute M s) = handleOptimizeRoute M s.
Proof.
  destruct (decide (length (selectedReports s) < 2)) as [Hlt|Hge].
  { unfold handleOptimizeRoute at 2. rewrite bool_decide_eq_true_2 by done.
    unfold handleOptimizeRoute. by rewrite bool_decide_eq_true_2. }
  destruct (selectedReports s) as [|first rest] eqn:Hsel; [simpl in Hge; lia|].
  assert (Hlen : 2 <= length (selectedReports s)) by (rewrite Hsel; lia).
  rewrite (handleOptimizeRoute_run M s first rest Hsel Hlen).
  set (s' := setShowRouteModal true _).
  assert (Hsel' : selectedReports s' = first :: rest) by exact Hsel.
  assert (Hlen' : 2 <= length (selectedReports s')) by (rewrite Hsel'; simpl in *; lia).
  by rewrite (handleOptimizeRoute_run M s' first rest Hsel' Hlen').
Qed.

(** * Status updates *)

Lemma withStatus_id st r : id (withStatus st r) = id r.
Proof. done. Qed.

(** X14. A status update keeps the number and the order of the reports and all
    their fields but the status; it sets the status of the reports with the
    given id and leaves the other reports as they are. *)
Theorem handleUpdateStatus_frame (i : string) (newStatus : ReportStatus)
    (prev : list Report) :
  let next := handleUpdateStatus i newStatus prev in
  map id next = map id prev /\
  map coordinates next = map coordinates prev /\
  map centerCity next = map centerCity prev /\
  (forall k r, prev !! k = Some r -> id r ≠ i -> next !! k = Some r) /\
  (forall r, r ∈ next -> id r = i -> status r = newStatus).
Proof.
  unfold handleUpdateStatus. split_and!.
  - rewrite map_map. apply map_ext. intros r. by case_decide.
  - rewrite map_map. apply map_ext. intros r. by case_decide.
  - rewrite map_map. apply map_ext. intros r. by case_decide.
  - intros k r Hk Hne. change (map ?g prev) with (g <$> prev).
    by rewrite list_lookup_fmap, Hk; simpl; rewrite decide_False.
  - intros r Hr Hid. change (map ?g prev) with (g <$> prev) in Hr.
    apply list_elem_of_fmap in Hr as (r0 & -> & _).
    destruct (decide (id r0 = i)); [done|]. by destruct n.
Qed.

(** X15. An update for an id that no report carries changes nothing. *)
Theorem handleUpdateStatus_unknown_id (i : string) (newStatus : ReportStatus)
    (prev : list Report) :
  i ∉ map id prev -> handleUpdateStatus i newStatus prev = prev.
Proof.
  unfold handleUpdateStatus. induction prev as [|r l IH]; [done|]; simpl.
  intros [Hr Hl]%not_elem_of_cons.
  rewrite decide_False by congruence. by rewrite IH.
Qed.

(** X16. The last update of an id wins; in particular an update is idempotent. *)
Theorem handleUpdateStatus_last_wins (i : string) (st1 st2 : ReportStatus)
    (prev : list Report) :
  handleUpdateStatus i st2 (handleUpdateStatus i st1 prev) =
  handleUpdateStatus i st2 prev.
Proof.
  unfold handleUpdateStatus. rewrite map_map. apply map_ext. intros r.
  destruct (decide (id r = i)) as [Hi|Hi].
  - rewrite decide_True by done. done.
  - by rewrite decide_False.
Qed.

(** X17. Updates of different ids commute. *)
Theorem handleUpdateStatus_commute (i j : string) (sti stj : ReportStatus)
    (prev : list Report) :
  i ≠ j ->
  handleUpdateStatus i sti (handleUpdateStatus j stj prev) =
  handleUpdateStatus j stj (handleUpdateStatus i sti prev).
Proof.
  intros Hne. unfold handleUpdateStatus. rewrite !map_map. apply map_ext.
  intros r. destruct (decide (id r = j)) as [Hj|Hj], (decide (id r = i)) as [Hi|Hi];
    simpl; repeat case_decide; congruence.
Qed.

(** X18. A status update does not touch the selection: the reports a selection
    denotes are the same reports with the update applied, so a selected
    report that is marked as collected is still part of the next route.
    The second equation relates the selection on values to the selected
    objects of [ReportList]. *)
Theorem selection_survives_update (ids : gset string) (i : string)
    (newStatus : ReportStatus) (prev : list Report) (s : ReportListState) :
  selectedValues ids (handleUpdateStatus i newStatus prev) =
    handleUpdateStatus i newStatus (selectedValues ids prev) /\
  map (heap s) (selectedReports s) =
    selectedValues (selectedReportIds s) (map (heap s) (reports s)).
Proof.
  split.
  - unfold selectedValues, handleUpdateStatus.
    induction prev as [|r l IH]; [done|]; simpl.
    rewrite !filter_cons. rewrite IH.
    destruct (decide (id r = i)) as [Hi|Hi]; simpl;
      destruct (decide (id r ∈ ids)); simpl; [|done| |done].
    + by rewrite decide_True.
    + by rewrite decide_False.
  - unfold selectedValues, selectedReports.
    induction (reports s) as [|r l IH]; [done|]; simpl.
    rewrite !filter_cons. destruct (decide (id (heap s r) ∈ selectedReportIds s));
      simpl; by rewrite IH.
Qed.

(** * The life cycle of a report *)

(** X19. With distinct ids, pressing a status button of a report moves that
    report strictly forward in its life cycle and leaves every other report
    as it is; a status other than VERIFIED offers no further button to any
    role. *)
Theorem offered_update_progress (role : UserRole) (newStatus : ReportStatus)
    (prev : list Report) (r : Report) :
  NoDup (map id prev) -> r ∈ prev ->
  newStatus ∈ offeredStatusUpdates role (status r) ->
  let next := handleUpdateStatus (id r) newStatus prev in
  statusRank (status r) < statusRank newStatus /\
  withStatus newStatus r ∈ next /\
  (forall k r', prev !! k = Some r' -> r' ≠ r -> next !! k = Some r') /\
  (newStatus ≠ VERIFIED -> forall role', offeredStatusUpdates role' newStatus = []).
Proof.
  intros Hnd Hr Hoff. cbv zeta. split_and!.
  - unfold offeredStatusUpdates in Hoff.
    destruct role, (status r); simpl in Hoff;
      repeat (apply elem_of_cons in Hoff as [->|Hoff]; [simpl; lia|]);
      by apply elem_of_nil in Hoff.
  - unfold handleUpdateStatus. change (map ?g prev) with (g <$> prev).
    apply list_elem_of_fmap. exists r. by rewrite decide_True.
  - intros k r' Hk Hne. unfold handleUpdateStatus.
    change (map ?g prev) with (g <$> prev). rewrite list_lookup_fmap, Hk; simpl.
    rewrite decide_False; [done|]. intros Hid. apply Hne.
    apply (NoDup_fmap_agree id prev); [done| |done|done].
    by apply list_elem_of_lookup_2 in Hk.
  - intros Hne role'. unfold offeredStatusUpdates in *.
    destruct role, (status r); simpl in Hoff;
      repeat (apply elem_of_cons in Hoff as [->|Hoff]; [by destruct role'|]);
      by apply elem_of_nil in Hoff.
Qed.

(** * The route map *)

Lemma routeMapEffect_Some container leaflet s m :
  routeMapEffect container leaflet s = Some m ->
  container = true /\ leaflet = true /\ showRouteModal s = true /\
  exists first rest, optimizedRoute s = first :: rest /\
    m = {| viewCenter := (lat (getCoords (heap s) first), lng (getCoords (heap s) first));
           viewZoom := 13;
           markers := imap (routeMarker (heap s)) (optimizedRoute s);
           polyline :=
             if bool_decide (1 < length (optimizedRoute s))
             then Some (map (fun r => (lat (getCoords (heap s) r),
                                       lng (getCoords (heap s) r))) (optimizedRoute s))
             else None;
           fitBounds :=
             if bool_decide (1 < length (optimizedRoute s))
             then Some (map (fun r => (lat (getCoords (heap s) r),
                                       lng (getCoords (heap s) r))) (optimizedRoute s),
                        (50, 50))
             else None |}.
Proof.
  unfold routeMapEffect.
  destruct (showRouteModal s), (bool_decide _), container, leaflet; simpl; try done.
  destruct (optimizedRoute s) as [|first rest] eqn:Hroute; [done|].
  intros [= <-]. split_and!; try done. exists first, rest. split; [done|].
  by rewrite length_map.
Qed.

(** X20. The map shows one marker per stop, in route order, at the resolved
    coordinate of the stop and numbered from 1; the origin colour is used
    for the first stop and for no other. *)
Theorem routeMapEffect_markers container leaflet (s : ReportListState) (m : RouteMap) :
  routeMapEffect container leaflet s = Some m ->
  length (markers m) = length (optimizedRoute s) /\
  forall k r, optimizedRoute s !! k = Some r ->
    exists mk, markers m !! k = Some mk /\
      markerNumber mk = k + 1 /\
      markerAt mk = (lat (getCoords (heap s) r), lng (getCoords (heap s) r)) /\
      (markerColor mk = "#10b981" <-> k = 0).
Proof.
  intros (_ & _ & _ & first & rest & _ & ->)%routeMapEffect_Some; simpl.
  split; [apply length_imap|].
  intros k r Hk. exists (routeMarker (heap s) k r).
  rewrite list_lookup_imap, Hk. split_and!; try done.
  unfold routeMarker; simpl. by destruct (decide (k = 0)).
Qed.

(** X21. The connecting line is drawn exactly when the route has more than one
    stop; it passes through the positions of the markers in order, and every
    leg of the stop list is the distance between two consecutive points of
    the line. *)
Theorem routeMapEffect_polyline (M : MathObject) container leaflet
    (s : ReportListState) (m : RouteMap) :
  routeMapEffect container leaflet s = Some m ->
  (polyline m = None <-> length (optimizedRoute s) = 1) /\
  forall pts, polyline m = Some pts ->
    pts = map markerAt (markers m) /\
    forall k item d,
      routeItems M (heap s) (optimizedRoute s) !! k = Some item ->
      leg item = Some d ->
      exists p q, pts !! k = Some p /\ pts !! (k + 1) = Some q /\
        d = getDistanceFromLatLonInKm M (fst p) (snd p) (fst q) (snd q).
Proof.
  intros (_ & _ & _ & first & rest & Hroute & ->)%routeMapEffect_Some; simpl.
  split.
  - rewrite Hroute; simpl. case_bool_decide; split; try done; lia.
  - intros pts. case_bool_decide; [|done]. intros [= <-]. split.
    + change (map ?g ?l) with (g <$> l). rewrite fmap_imap.
      rewrite <- (imap_const (fun r => _)). by apply imap_ext.
    + intros k item d Hitem Hleg. unfold routeItems in Hitem.
      rewrite list_lookup_imap in Hitem.
      destruct (optimizedRoute s !! k) as [a|] eqn:Ha; [|done].
      injection Hitem as <-. unfold routeItem in Hleg; simpl in Hleg.
      destruct (optimizedRoute s !! (k + 1)) as [b|] eqn:Hb; [|done].
      injection Hleg as <-.
      change (map ?g ?l) with (g <$> l). rewrite !list_lookup_fmap, Ha, Hb; simpl.
      by eexists _, _.
Qed.

(** X22. After Generate Route on at least two selected reports the map is
    drawn as soon as its container and the map library are there.  It is
    created with the view on the first selected report at zoom 13; unless the
    route has a single stop, the view is then fitted, with padding 50, to the
    points of the connecting line, which are the resolved coordinates of the
    stops in route order.  When the selected reports are distinct objects
    with distances below Infinity the fitted points are those of all the
    selected reports. *)
Theorem routeMapEffect_after_optimize (M : MathObject) (s : ReportListState)
    first rest :
  selectedReports s = first :: rest ->
  2 <= length (selectedReports s) ->
  let position := fun r => (lat (getCoords (heap s) r), lng (getCoords (heap s) r)) in
  let stops := optimizedRoute (handleOptimizeRoute M s) in
  exists m, routeMapEffect true true (handleOptimizeRoute M s) = Some m /\
    viewCenter m = position first /\ viewZoom m = 13 /\
    (fitBounds m = None <-> length stops = 1) /\
    (forall pts padding, fitBounds m = Some (pts, padding) ->
       pts = map position stops /\ padding = (50, 50) /\ polyline m = Some pts) /\
    (NoDup (selectedReports s) ->
     finite_distances M (heap s) (selectedReports s) ->
     exists pts, fitBounds m = Some (pts, (50, 50)) /\
       pts ≡ₚ map position (selectedReports s)).
Proof.
  intros Hsel Hlen position stops. subst stops.
  rewrite (handleOptimizeRoute_run M s first rest Hsel Hlen).
  destruct (while_loop_bounded M (heap s) first rest) as [Hhd _].
  unfold routeMapEffect. cbn [showRouteModal optimizedRoute heap
    setShowRouteModal setOptimizedRoute].
  rewrite Hsel.
  pose proof (while_loop_complete M (heap s) first rest) as Hall.
  destruct (route (while_loop M (heap s) (loop_entry first rest))) as [|x tl];
    [done|].
  injection Hhd as ->. rewrite bool_decide_eq_true_2 by (simpl; lia).
  eexists. split; [reflexivity|]. cbn [viewCenter viewZoom fitBounds polyline].
  rewrite length_map. fold position. split_and!; [done|done| | |].
  - case_bool_decide; split; try done; simpl in *; lia.
  - intros pts padding. case_bool_decide; [|done]. by intros [= <- <-].
  - intros Hnd Hfin. destruct (Hall Hnd Hfin) as [Hperm _].
    rewrite bool_decide_eq_true_2.
    + eexists. split; [reflexivity|].
      change (map position ?l) with (position <$> l). by rewrite Hperm.
    + rewrite Hperm, <- Hsel. lia.
Qed.

(** * The marker of [LocationInput] *)

(** A number is falsy exactly when it is +0, -0 or NaN. *)
Lemma truthy_false_iff x :
  truthy x = false <-> x = 0%float \/ x = (-0)%float \/ x = nan.
Proof.
  split.
  - unfold truthy. rewrite orb_false_iff, !ltb_spec. unfold SFltb.
    change (Prim2SF 0) with (S754_zero false).
    intros [H1 H2]. destruct (Prim2SF x) as [[]|[]| |[] m e] eqn:Hx;
      try discriminate H1; try discriminate H2.
    + right; left. apply Prim2SF_inj. rewrite Hx. reflexivity.
    + left. apply Prim2SF_inj. rewrite Hx. reflexivity.
    + right; right. apply Prim2SF_inj. rewrite Hx. reflexivity.
  - intros [->|[->| ->]]; vm_compute; reflexivity.
Qed.

Lemma city_coordinates_truthy city cityCoords :
  CITY_COORDINATES !! city = Some cityCoords ->
  truthy (lat cityCoords) = true /\ truthy (lng cityCoords) = true.
Proof.
  intros Hc. unfold CITY_COORDINATES in Hc.
  apply elem_of_list_to_map_2 in Hc.
  repeat (apply elem_of_cons in Hc as [[= -> ->]|Hc];
          [split; vm_compute; reflexivity|]).
  by apply elem_of_nil in Hc.
Qed.

(** X23. Whenever [LocationInput] places its marker for the coordinates and the
    city of a report, the marker is where [getCoords] resolves the report;
    the zoom is 16 for a live coordinate and 12 for a city centre. *)
Theorem viewUpdate_agrees_with_getCoords (h : Heap) (r : ReportRef)
    (la ln : float) (zoom : nat) :
  viewUpdate (coordinates (h r)) (centerCity (h r)) = Some (la, ln, zoom) ->
  getCoords h r = {| lat := la; lng := ln |} /\
  zoom = match coordinates (h r) with Some _ => 16 | None => 12 end.
Proof.
  unfold viewUpdate, getCoords. destruct (coordinates (h r)) as [c|].
  - destruct (truthy (latitude c) && truthy (longitude c)); [|done].
    by intros [= <- <- <-].
  - destruct (decide (centerCity (h r) = "")); [done|].
    destruct (CITY_COORDINATES !! centerCity (h r)) as [cc|]; [|done].
    destruct (truthy (lat cc) && truthy (lng cc)); [|done].
    by intros [= <- <- <-].
Qed.

(** X24. With a live coordinate the marker is withheld exactly when the latitude
    or the longitude is +0, -0 or NaN, whatever the city; without one it is
    withheld exactly when the city is not an entry of the table. *)
Theorem viewUpdate_withheld (c : GeoCoordinates) (city : string) :
  (viewUpdate (Some c) city = None <->
     (latitude c = 0%float \/ latitude c = (-0)%float \/ latitude c = nan) \/
     (longitude c = 0%float \/ longitude c = (-0)%float \/ longitude c = nan)) /\
  (viewUpdate None city = None <-> CITY_COORDINATES !! city = None).
Proof.
  split.
  - unfold viewUpdate. rewrite <- !truthy_false_iff.
    destruct (truthy (latitude c)), (truthy (longitude c)); simpl;
      split; try done; auto. by intros [|].
  - unfold viewUpdate. destruct (decide (city = "")) as [->|Hne].
    + split; [|done]. intros _. vm_compute. reflexivity.
    + destruct (CITY_COORDINATES !! city) as [cc|] eqn:Hc; [|done].
      destruct (city_coordinates_truthy _ _ Hc) as [-> ->]. done.
Qed.

(** * Distances with NaN and at a single point *)

Lemma float_sub_nan_r x : (x - nan)%float = nan.
Proof.
  apply Prim2SF_inj. rewrite sub_spec.
  change (Prim2SF nan) with S754_nan. by destruct (Prim2SF x) as [[]|[]| |].
Qed.

Lemma float_mul_nan_r x : (x * nan)%float = nan.
Proof.
  apply Prim2SF_inj. rewrite mul_spec.
  change (Prim2SF nan) with S754_nan. by destruct (Prim2SF x) as [[]|[]| |].
Qed.

Lemma float_add_nan_r x : (x + nan)%float = nan.
Proof.
  apply Prim2SF_inj. rewrite add_spec.
  change (Prim2SF nan) with S754_nan. by destruct (Prim2SF x) as [[]|[]| |].
Qed.

Lemma getDistance_NaN_any (M : MathObject) (lat1 lon1 lat2 lon2 : float) :
  propagates_NaN M ->
  lat1 = nan \/ lon1 = nan \/ lat2 = nan \/ lon2 = nan ->
  getDistanceFromLatLonInKm M lat1 lon1 lat2 lon2 = nan.
Proof.
  intros [Hsin Hatan] Hnan. unfold getDistanceFromLatLonInKm. cbv zeta.
  assert (Ha : forall dLat dLon c, dLat = nan \/ dLon = nan ->
    (Math_sin M (deg2rad dLat / 2) * Math_sin M (deg2rad dLat / 2) +
     c * Math_sin M (deg2rad dLon / 2) * Math_sin M (deg2rad dLon / 2))%float = nan).
  { intros dLat dLon c [-> | ->].
    - change (deg2rad nan / 2)%float with nan. rewrite Hsin.
      change (nan * nan)%float with nan. by rewrite JSNumber.add_nan_l.
    - change (deg2rad nan / 2)%float with nan. rewrite Hsin.
      by rewrite !float_mul_nan_r, float_add_nan_r. }
  rewrite Ha.
  - change (Math_sqrt nan) with nan. by rewrite Hatan.
  - destruct Hnan as [-> |[-> |[-> | ->]]].
    + left. apply float_sub_nan_r.
    + right. apply float_sub_nan_r.
    + left. apply JSNumber.sub_nan_l.
    + right. apply JSNumber.sub_nan_l.
Qed.

(** X25. On an engine that follows ECMA-262 for NaN arguments the distance is
    NaN as soon as one of the four coordinates is NaN; so the distance between
    two reports is NaN as soon as the resolved coordinate of one of them has
    a NaN component. *)
Theorem getDistance_NaN_coordinate (M : MathObject) (h : Heap)
    (lat1 lon1 lat2 lon2 : float) (a b : ReportRef) :
  propagates_NaN M ->
  (lat1 = nan \/ lon1 = nan \/ lat2 = nan \/ lon2 = nan ->
   getDistanceFromLatLonInKm M lat1 lon1 lat2 lon2 = nan) /\
  (hasNaN (getCoords h a) \/ hasNaN (getCoords h b) ->
   distanceBetween M h a b = nan).
Proof.
  intros HM. split.
  - by apply getDistance_NaN_any.
  - unfold hasNaN, distanceBetween. cbv zeta. intros Hnan.
    apply getDistance_NaN_any; [done|tauto].
Qed.

(** X26. On an engine that follows ECMA-262 for NaN arguments a step neither
    starts from nor appends a report whose resolved coordinate has a NaN
    component: from such a stop the loop is left at once, and such a
    candidate is never the nearest. *)
Theorem NaN_never_visited (M : MathObject) (h : Heap) (st st' : LoopState) :
  propagates_NaN M ->
  loop_body M h st = Some st' ->
  ~ hasNaN (getCoords h (current st)) /\ ~ hasNaN (getCoords h (current st')).
Proof.
  intros HM Hb. destruct (loop_body_step _ _ _ _ Hb) as (n & Hscan & Hn & ->).
  cbn [current].
  pose proof (scan_from_current M h st) as Hs. unfold scanned in Hs.
  rewrite Hscan in Hs. destruct Hs as (_ & Hfin & _).
  unfold candidateDist in Hfin.
  split; intros [Hnan|Hnan];
    rewrite (getDistance_NaN_any M _ _ _ _ HM) in Hfin by tauto;
    vm_compute in Hfin; discriminate Hfin.
Qed.

Lemma float_zero_product p :
  is_finite p = true -> (0 + p * 0 * 0)%float = 0%float.
Proof.
  unfold is_finite. rewrite ltb_spec, abs_spec. intros Hfin.
  apply Prim2SF_inj. rewrite add_spec, !mul_spec.
  change (Prim2SF 0) with (S754_zero false).
  by destruct (Prim2SF p) as [[]|[]| |[] m e].
Qed.

(** X27. The distance from a finite point to itself is exactly 0 on an engine
    with [Math.sin(0) = 0] and [Math.atan2(0, 1) = 0] whose cosine of the
    latitude has a finite square. *)
Theorem getDistance_same_point (M : MathObject) (lat1 lon1 : float) :
  Math_sin M 0 = 0%float -> Math_atan2 M 0 1 = 0%float ->
  is_finite lat1 = true -> is_finite lon1 = true ->
  is_finite (Math_cos M (deg2rad lat1) * Math_cos M (deg2rad lat1)) = true ->
  getDistanceFromLatLonInKm M lat1 lon1 lat1 lon1 = 0%float.
Proof.
  intros Hsin Hatan Hlat Hlon Hcos. unfold getDistanceFromLatLonInKm. cbv zeta.
  rewrite (JSNumber.sub_diag _ Hlat), (JSNumber.sub_diag _ Hlon).
  change (deg2rad 0 / 2)%float with 0%float. rewrite Hsin.
  change (0 * 0)%float with 0%float. rewrite (float_zero_product _ Hcos).
  change (Math_sqrt 0) with 0%float.
  change (Math_sqrt (1 - 0)) with 1%float. rewrite Hatan.
  vm_compute. reflexivity.
Qed.

(** * The properties at the sample data *)

Module DashboardFacts.
Import Sample DashboardSample.

Lemma all_visible :
  visibleReports toBeCleaned analyses none_selected = [0; 1; 2; 3].
Proof. vm_compute. reflexivity. Qed.

Lemma distinct_ids : NoDup (reportIds none_selected [0; 1; 2; 3]).
Proof. apply (bool_decide_unpack _). vm_compute. exact I. Qed.

Lemma three_cities_ids_known j :
  j ∈ selectedReportIds three_cities ->
  j ∈ reportIds three_cities (reports three_cities).
Proof.
  unfold three_cities, dashboard. cbn [selectedReportIds reports].
  rewrite elem_of_list_to_set. intros Hj.
  repeat (apply elem_of_cons in Hj as [->|Hj];
          [apply list_elem_of_In; vm_compute; tauto|]).
  by apply elem_of_nil in Hj.
Qed.

Lemma first_step :
  loop_body series_Math objects (loop_entry 0 [1; 2])
    = Some {| route := [0; 2]; unvisited := [1]; current := 2 |}.
Proof. vm_compute. reflexivity. Qed.

End DashboardFacts.

Lemma volunteer_sees_verified_or_collected_witness :
  status (Sample.objects 0) = VERIFIED \/ status (Sample.objects 0) = COLLECTED.
Proof.
  apply (volunteer_sees_verified_or_collected DashboardSample.toBeCleaned
           DashboardSample.analyses DashboardSample.none_selected 0).
  - reflexivity.
  - rewrite DashboardFacts.all_visible. apply list_elem_of_here.
Defined.

Lemma visibleReports_unfiltered_witness :
  visibleReports (DashboardSample.filters Admin "ALL" "ALL")
    DashboardSample.analyses DashboardSample.none_selected = [0; 1; 2; 3].
Proof.
  apply (visibleReports_unfiltered (DashboardSample.filters Admin "ALL" "ALL")
           DashboardSample.analyses DashboardSample.none_selected);
    [discriminate|reflexivity..].
Defined.

Lemma visibleReports_analysis_filters_witness :
  exists x, DashboardSample.analyses 0 = Some x /\ wasteType x = "Domestic".
Proof.
  refine (proj1 (proj2 (visibleReports_analysis_filters
            (DashboardSample.filters Admin "ALL" "Domestic")
            DashboardSample.analyses DashboardSample.none_selected 0 _)) _ _).
  - replace (visibleReports _ _ _) with [0] by (vm_compute; reflexivity).
    apply list_elem_of_here.
  - discriminate.
  - discriminate.
Defined.

Lemma toggleSelectAll_selects_witness :
  "r2" ∈ selectedReportIds
           (toggleSelectAll DashboardSample.toBeCleaned DashboardSample.analyses
              DashboardSample.none_selected).
Proof.
  apply (toggleSelectAll_selects DashboardSample.toBeCleaned
           DashboardSample.analyses DashboardSample.none_selected "r2").
  - rewrite DashboardFacts.all_visible. vm_compute. discriminate.
  - exists 2. rewrite DashboardFacts.all_visible. split_and!; [|reflexivity..].
    apply list_elem_of_In. vm_compute. tauto.
Defined.

Lemma toggleSelectAll_selectedReports_witness :
  selectedReports
    (toggleSelectAll DashboardSample.toBeCleaned DashboardSample.analyses
       DashboardSample.none_selected)
  = filter (fun r => status (Sample.objects r) = VERIFIED)
      (visibleReports DashboardSample.toBeCleaned DashboardSample.analyses
         DashboardSample.none_selected).
Proof.
  apply (toggleSelectAll_selectedReports DashboardSample.toBeCleaned
           DashboardSample.analyses DashboardSample.none_selected).
  - exact DashboardFacts.distinct_ids.
  - rewrite DashboardFacts.all_visible. vm_compute. discriminate.
Defined.

Lemma toggleSelectAll_twice_clears_witness :
  selectedReportIds
    (toggleSelectAll DashboardSample.toBeCleaned DashboardSample.analyses
       (toggleSelectAll DashboardSample.toBeCleaned DashboardSample.analyses
          DashboardSample.none_selected)) = ∅.
Proof.
  apply toggleSelectAll_twice_clears.
  - reflexivity.
  - rewrite DashboardFacts.all_visible. exact DashboardFacts.distinct_ids.
  - rewrite DashboardFacts.all_visible. vm_compute. discriminate.
Defined.

Lemma routeButton_opens_modal_witness :
  showRouteModal (handleOptimizeRoute Sample.series_Math Sample.three_cities) = true.
Proof.
  refine (proj1 (proj2 (routeButton_opens_modal Sample.series_Math
            DashboardSample.toBeCleaned Sample.three_cities _ _) _)).
  - exact DashboardFacts.distinct_ids.
  - exact DashboardFacts.three_cities_ids_known.
  - vm_compute. reflexivity.
Defined.

Lemma route_without_repetition_witness :
  NoDup (optimizedRoute (handleOptimizeRoute Sample.series_Math Sample.with_NaN)).
Proof.
  refine (proj1 (route_without_repetition Sample.series_Math Sample.with_NaN _ _)).
  - rewrite SampleFacts.with_NaN_selected. simpl. lia.
  - rewrite SampleFacts.with_NaN_selected. exact distinct_05.
Defined.

Lemma handleUpdateStatus_frame_witness :
  handleUpdateStatus "r1" COLLECTED DashboardSample.stored !! 0
    = Some (Sample.objects 0).
Proof.
  refine (proj1 (proj2 (proj2 (proj2 (handleUpdateStatus_frame "r1" COLLECTED
            DashboardSample.stored)))) 0 (Sample.objects 0) _ _).
  - reflexivity.
  - discriminate.
Defined.

Lemma handleUpdateStatus_unknown_id_witness :
  handleUpdateStatus "r9" COLLECTED DashboardSample.stored = DashboardSample.stored.
Proof.
  apply handleUpdateStatus_unknown_id. intros Hin.
  apply list_elem_of_In in Hin. vm_compute in Hin.
  repeat (destruct Hin as [Hin|Hin]; [discriminate Hin|]). exact Hin.
Defined.

Lemma handleUpdateStatus_commute_witness :
  handleUpdateStatus "r0" COLLECTED
    (handleUpdateStatus "r1" REJECTED DashboardSample.stored) =
  handleUpdateStatus "r1" REJECTED
    (handleUpdateStatus "r0" COLLECTED DashboardSample.stored).
Proof. apply handleUpdateStatus_commute. discriminate. Defined.

Lemma routeMapEffect_after_optimize_witness :
  exists m,
    routeMapEffect true true
      (handleOptimizeRoute Sample.series_Math Sample.three_cities) = Some m /\
    viewCenter m = (19.0760, 72.8777)%float /\
    exists pts, fitBounds m = Some (pts, (50, 50)) /\ length pts = 3.
Proof.
  assert (Hlen : 2 <= length (selectedReports Sample.three_cities))
    by (rewrite SampleFacts.three_cities_selected; simpl; lia).
  destruct (routeMapEffect_after_optimize Sample.series_Math Sample.three_cities
              0 [1; 2] SampleFacts.three_cities_selected Hlen)
    as (m & Hm & Hcenter & _ & _ & _ & Hall).
  exists m. split; [exact Hm|]. split; [exact Hcenter|].
  rewrite SampleFacts.three_cities_selected in Hall.
  destruct (Hall distinct_012 SampleFacts.three_cities_finite) as (pts & Hfit & Hperm).
  exists pts. split; [exact Hfit|].
  apply Permutation_length in Hperm. exact Hperm.
Defined.

Lemma routeMapEffect_markers_witness :
  exists m,
    routeMapEffect true true
      (handleOptimizeRoute Sample.series_Math Sample.three_cities) = Some m /\
    length (markers m) = 3.
Proof.
  destruct (routeMapEffect true true
              (handleOptimizeRoute Sample.series_Math Sample.three_cities))
    as [m|] eqn:Hm; [|vm_compute in Hm; discriminate Hm].
  exists m. split; [reflexivity|].
  rewrite (proj1 (routeMapEffect_markers true true _ m Hm)).
  vm_compute. reflexivity.
Defined.

Lemma routeMapEffect_polyline_witness :
  exists m,
    routeMapEffect true true
      (handleOptimizeRoute Sample.series_Math Sample.three_cities) = Some m /\
    polyline m ≠ None.
Proof.
  destruct (routeMapEffect true true
              (handleOptimizeRoute Sample.series_Math Sample.three_cities))
    as [m|] eqn:Hm; [|vm_compute in Hm; discriminate Hm].
  exists m. split; [reflexivity|].
  intros Hnone.
  apply (proj1 (routeMapEffect_polyline Sample.series_Math true true _ m Hm)) in Hnone.
  vm_compute in Hnone. discriminate Hnone.
Defined.

Lemma viewUpdate_agrees_with_getCoords_witness :
  getCoords Sample.objects 3 = {| lat := 12.9352; lng := 77.6245 |}.
Proof.
  refine (proj1 (viewUpdate_agrees_with_getCoords Sample.objects 3
                   12.9352 77.6245 16 _)).
  vm_compute. reflexivity.
Defined.

Lemma getDistance_NaN_coordinate_witness :
  getDistanceFromLatLonInKm Sample.series_Math 19.0760 nan 18.5204 73.8567 = nan /\
  distanceBetween Sample.series_Math Sample.objects 0 5 = nan.
Proof.
  destruct (getDistance_NaN_coordinate Sample.series_Math Sample.objects
              19.0760 nan 18.5204 73.8567 0 5 SampleFacts.series_propagates_NaN)
    as [Hraw Hreports].
  split.
  - apply Hraw. right. left. reflexivity.
  - apply Hreports. right. left. reflexivity.
Defined.

Lemma NaN_never_visited_witness :
  ~ hasNaN (getCoords Sample.objects 0) /\ ~ hasNaN (getCoords Sample.objects 2).
Proof.
  apply (NaN_never_visited Sample.series_Math Sample.objects _ _
           SampleFacts.series_propagates_NaN DashboardFacts.first_step).
Defined.

Lemma getDistance_same_point_witness :
  getDistanceFromLatLonInKm Sample.series_Math 19.0760 72.8777 19.0760 72.8777
    = 0%float.
Proof.
  apply getDistance_same_point; vm_compute; reflexivity.
Defined.

Lemma offered_update_progress_witness :
  withStatus COLLECTED (Sample.objects 0)
    ∈ handleUpdateStatus "r0" COLLECTED DashboardSample.stored.
Proof.
  refine (proj1 (proj2 (offered_update_progress Volunteer COLLECTED
            DashboardSample.stored (Sample.objects 0) _ _ _))).
  - apply (bool_decide_unpack _). vm_compute. exact I.
  - apply list_elem_of_here.
  - apply list_elem_of_here.
Defined.
